(** * UniTrade executor service: the orchestration engine

    A shallow embedding of [UniTradeExecutorService] (the service class of
    the executor) and of the declarations of [lib/types.ts] it uses,
    followed by the properties of the engine: the execute-or-hold decision,
    the per-order execution lock, the bad-order retry counter, the failure
    circuit breaker with its reset timer, the pool registry with its
    price-sync subscriptions, and shutdown.

    Conventions of the embedding.
    - JavaScript objects used as maps are [gmap]s; a [number] that holds an
      integer quantity is a [Z]; [NaN] is kept apart ([JsNumber]).
    - The service mutates its own fields, may terminate the process
      ([process.exit]) and may leave a promise rejected: a method is a
      function from the state to an [outcome].
    - A handler runs from its event to its end without another handler in
      between.  A call to an [async] method that the caller does not await
      is queued as a [Task] and runs when it is resumed, which is a step of
      its own ([Resume]).
    - Collaborators (providers, the webhook) are a record [World] of
      answers, one record per step. *)

From Stdlib Require Import ZArith Lia Ascii String List.
From stdpp Require Import base option gmap strings list fin_maps.

Local Open Scope string_scope.
Local Open Scope list_scope.
Local Open Scope Z_scope.

(** ** lib/types.ts *)

Module ExitCodes.
Definition Success : Z := 0.
Definition GenericError : Z := 1.
Definition TooManyFailures : Z := 2.
Definition TooMuchGasLost : Z := 3.
End ExitCodes.

Module OrderState.
Definition Placed : Z := 0.
Definition Cancelled : Z := 1.
Definition Executed : Z := 2.
End OrderState.

Record IUniTradeOrder := {
  orderId : Z;
  orderType : Z;
  maker : string;
  tokenIn : string;
  tokenOut : string;
  amountInOffered : Z;
  amountOutExpected : Z;
  executorFee : Z;
  totalEthDeposited : Z;
  orderState : Z;
  deflationary : bool;
}.

(** ** JavaScript values the service reads *)

(** The result of [parseInt] and [Number]. *)
Inductive JsNumber := NaN | Num (z : Z).

(** [a >= b] and [a > b] for an integer [a]; comparing with [NaN] is false. *)
Definition js_ge (a : Z) (b : JsNumber) : bool :=
  match b with NaN => false | Num n => n <=? a end.

Definition js_gt (a : Z) (b : JsNumber) : bool :=
  match b with NaN => false | Num n => n <? a end.

(** Truthiness of a string: every string but the empty one. *)
Definition truthy_string (s : string) : bool :=
  match s with EmptyString => false | String _ _ => true end.

(** Truthiness of a possibly undefined number: defined and not zero. *)
Definition truthy_num (v : option Z) : bool :=
  match v with Some z => negb (z =? 0) | None => false end.

Definition isWhiteSpace (c : ascii) : bool :=
  match N_of_ascii c with
  | 9%N | 10%N | 11%N | 12%N | 13%N | 32%N => true
  | _ => false
  end.

Fixpoint trimStart (s : string) : string :=
  match s with
  | String c s' => if isWhiteSpace c then trimStart s' else s
  | EmptyString => s
  end.

(** The value of a character as a digit: 0-9, then a-z and A-Z for 10-35. *)
Definition digitValue (c : ascii) : option Z :=
  let n := Z.of_N (N_of_ascii c) in
  if (48 <=? n) && (n <=? 57) then Some (n - 48)
  else if (97 <=? n) && (n <=? 122) then Some (n - 87)
  else if (65 <=? n) && (n <=? 90) then Some (n - 55)
  else None.

(** The longest prefix of digits of the radix, read as a number; [acc] is
    [None] until a digit has been read. *)
Fixpoint parseDigits (radix : Z) (s : string) (acc : option Z) : option Z :=
  match s with
  | String c s' =>
      match digitValue c with
      | Some d =>
          if d <? radix
          then parseDigits radix s' (Some (radix * default 0 acc + d))
          else acc
      | None => acc
      end
  | EmptyString => acc
  end.

(** [parseInt(s, radix)]; [radix = None] is the call with one argument.
    White space is the ASCII white space; the result is the integer read,
    not rounded to a double. *)
Definition parseInt (s : string) (radix : option Z) : JsNumber :=
  let s1 := trimStart s in
  let '(sign, s2) :=
    match s1 with
    | String "-" r => (-1, r)
    | String "+" r => (1, r)
    | _ => (1, s1)
    end in
  let R := default 0 radix in
  if negb (R =? 0) && ((R <? 2) || (36 <? R)) then NaN
  else
    let stripPrefix := (R =? 0) || (R =? 16) in
    let R := if R =? 0 then 10 else R in
    let '(R, s3) :=
      match s2 with
      | String "0" (String x r) =>
          if stripPrefix && (Ascii.eqb x "x" || Ascii.eqb x "X")
          then (16, r) else (R, s2)
      | _ => (R, s2)
      end in
    match parseDigits R s3 None with
    | None => NaN
    | Some n => Num (sign * n)
    end.

Definition toLowerCaseChar (c : ascii) : ascii :=
  let n := N_of_ascii c in
  if ((65 <=? n) && (n <=? 90))%N then ascii_of_N (n + 32) else c.

Fixpoint toLowerCase (s : string) : string :=
  match s with
  | String c s' => String (toLowerCaseChar c) (toLowerCase s')
  | EmptyString => EmptyString
  end.

(** A transaction receipt as the service reads it. *)
Record Receipt := {
  transactionHash : string;
  gasUsed : option Z;
  status : bool;
}.

(** What [handleFailedExecution] is handed: its parameter is [any].  The
    execution path passes [err.receipt] (an object, or undefined), the
    order-executed listener passes a transaction hash. *)
Inductive JsReceipt :=
| RUndefined
| RObject (r : Receipt)
| RString (s : string).

Definition truthy_receipt (r : JsReceipt) : bool :=
  match r with
  | RUndefined => false
  | RObject _ => true
  | RString s => truthy_string s
  end.

(** [receipt.gasUsed || 0] *)
Definition gasUsed_or_0 (r : JsReceipt) : Z :=
  match r with
  | RObject r => match gasUsed r with Some g => g | None => 0 end
  | _ => 0
  end.

(** ** config.ts

    The settings are the strings of the environment.  [badOrderRetry] is
    kept as [Number(config.badOrderRetry)], the one reading the service
    makes of it; [ESTIMATED_GAS_OVERRIDE] is the variable of that name in
    [process.env]. *)
Record Config := {
  badOrderRetry : JsNumber;
  maxFailureCount : string;
  maxFailureGasCost : string;
  maxFailureDuration : string;
  resetTimerOnFailure : string;
  failureShutdownWebhookUrl : string;
  ESTIMATED_GAS_OVERRIDE : option string;
}.

(** ** lib/classes: TokenPool *)

(** Modelled from the spec: the class [TokenPool] of [lib/classes], which
    the service imports; a market pool is keyed by its pair address and
    owns a mapping from order identifier to order, with add, remove (a
    no-op when the order is absent) and count. *)
Record TokenPool := {
  pairAddress : string;
  orders : gmap Z IUniTradeOrder;
}.

(** Modelled from the spec: the constructor of [TokenPool]; a pool is
    created for a pair and owns no order yet. *)
Definition newTokenPool (pairAddr : string) : TokenPool :=
  {| pairAddress := pairAddr; orders := ∅ |}.

(** Modelled from the spec: [TokenPool.addOrder], which puts the order
    under its identifier. *)
Definition addOrder (id : Z) (o : IUniTradeOrder) (p : TokenPool) : TokenPool :=
  {| pairAddress := pairAddress p; orders := <[id := o]> (orders p) |}.

(** Modelled from the spec: [TokenPool.removeOrder], a no-op when the pool
    does not own the order. *)
Definition removeOrder (id : Z) (p : TokenPool) : TokenPool :=
  {| pairAddress := pairAddress p; orders := delete id (orders p) |}.

(** Modelled from the spec: [TokenPool.getOrderCount], the number of orders
    the pool owns. *)
Definition getOrderCount (p : TokenPool) : nat := size (orders p).

(** ** Collaborators *)

Inductive GasEstimate :=
| EstimateRejects
| EstimateResolves (estimatedGas : option Z).

(** [executeOrder] either resolves, with a value the callers only test for
    truth, or rejects with an error whose [receipt] may be undefined. *)
Inductive Execution :=
| ExecutionRejects (receipt : JsReceipt)
| ExecutionResolves (executed : bool).

(** The answers of the providers and of the webhook during one step; for a
    call that returns a promise, [None] (or [false]) is a rejection. *)
Record World := {
  getPairAddress : string -> string -> option string;
  isInTheMoney : IUniTradeOrder -> option bool;
  getEstimatedGasForOrder : Z -> GasEstimate;
  getPreferredGasPrice : option Z;
  executeOrder : IUniTradeOrder -> Z -> Z -> Execution;
  getOrCreatePairContract : string -> bool;
  subscribe : string -> bool;
  getTransactionReceipt : string -> option (option Receipt);
  fetch : bool;
}.

(** ** The state of the service *)

(** The continuation of an [async] method started without [await]. *)
Inductive Task :=
| TRemovePoolOrder (id : Z) (order : IUniTradeOrder)
| TAddPoolOrder (id : Z) (order : IUniTradeOrder)
| TCreatePoolChangeListener (pairAddr : string)
| TShutdownExit (exitCode : Z).

(** What the service does to the world around it. *)
Inductive Event :=
| EvLock (id : Z)
| EvUnlock (id : Z)
| EvIsInTheMoney (order : IUniTradeOrder)
| EvGetEstimatedGasForOrder (id : Z)
| EvGetPreferredGasPrice
| EvExecuteOrder (order : IUniTradeOrder) (estimatedGas gasPrice : Z)
| EvGetPairAddress (tokIn tokOut : string)
| EvGetOrCreatePairContract (pairAddr : string)
| EvGetTransactionReceipt (hash : string)
| EvSubscribe (name : string)
| EvRemoveAllListeners (emitter : nat)
| EvFetch (url : string) (exitCode : Z)
| EvLogShutdownError.

(** The fields of [UniTradeExecutorService] ([failureListener] is never
    assigned and [activeOrders] is local to [start]), then the run time:
    the timeouts that have not fired ([timers], with their delay), the
    next emitter or timer to hand out ([fresh]), the calls waiting to be
    resumed ([pending]) and the events so far ([trace]); these three lists
    have the most recent entry first.  An emitter of [poolListeners] or
    [orderListeners] is named by a number. *)
Record State := {
  orderLocks : gmap Z bool;
  badOrderMap : gmap Z Z;
  pools : gmap string TokenPool;
  poolListeners : gmap string nat;
  orderListeners : gmap string nat;
  failedTxnTimer : option nat;
  failedTxnCount : Z;
  failedTxnGasCost : Z;
  timers : list (nat * JsNumber);
  fresh : nat;
  pending : list Task;
  trace : list Event;
}.

Definition initial : State :=
  {| orderLocks := ∅; badOrderMap := ∅; pools := ∅; poolListeners := ∅;
     orderListeners := ∅; failedTxnTimer := None; failedTxnCount := 0;
     failedTxnGasCost := 0; timers := []; fresh := 0%nat; pending := [];
     trace := [] |}.

Definition set_orderLocks (f : gmap Z bool -> gmap Z bool) (s : State) : State :=
  {| orderLocks := f (orderLocks s); badOrderMap := badOrderMap s;
     pools := pools s; poolListeners := poolListeners s;
     orderListeners := orderListeners s; failedTxnTimer := failedTxnTimer s;
     failedTxnCount := failedTxnCount s; failedTxnGasCost := failedTxnGasCost s;
     timers := timers s; fresh := fresh s; pending := pending s;
     trace := trace s |}.

Definition set_badOrderMap (f : gmap Z Z -> gmap Z Z) (s : State) : State :=
  {| orderLocks := orderLocks s; badOrderMap := f (badOrderMap s);
     pools := pools s; poolListeners := poolListeners s;
     orderListeners := orderListeners s; failedTxnTimer := failedTxnTimer s;
     failedTxnCount := failedTxnCount s; failedTxnGasCost := failedTxnGasCost s;
     timers := timers s; fresh := fresh s; pending := pending s;
     trace := trace s |}.

Definition set_pools (f : gmap string TokenPool -> gmap string TokenPool)
    (s : State) : State :=
  {| orderLocks := orderLocks s; badOrderMap := badOrderMap s;
     pools := f (pools s); poolListeners := poolListeners s;
     orderListeners := orderListeners s; failedTxnTimer := failedTxnTimer s;
     failedTxnCount := failedTxnCount s; failedTxnGasCost := failedTxnGasCost s;
     timers := timers s; fresh := fresh s; pending := pending s;
     trace := trace s |}.

Definition set_poolListeners (f : gmap string nat -> gmap string nat)
    (s : State) : State :=
  {| orderLocks := orderLocks s; badOrderMap := badOrderMap s;
     pools := pools s; poolListeners := f (poolListeners s);
     orderListeners := orderListeners s; failedTxnTimer := failedTxnTimer s;
     failedTxnCount := failedTxnCount s; failedTxnGasCost := failedTxnGasCost s;
     timers := timers s; fresh := fresh s; pending := pending s;
     trace := trace s |}.

Definition set_orderListeners (f : gmap string nat -> gmap string nat)
    (s : State) : State :=
  {| orderLocks := orderLocks s; badOrderMap := badOrderMap s;
     pools := pools s; poolListeners := poolListeners s;
     orderListeners := f (orderListeners s); failedTxnTimer := failedTxnTimer s;
     failedTxnCount := failedTxnCount s; failedTxnGasCost := failedTxnGasCost s;
     timers := timers s; fresh := fresh s; pending := pending s;
     trace := trace s |}.

Definition set_failedTxnTimer (t : option nat) (s : State) : State :=
  {| orderLocks := orderLocks s; badOrderMap := badOrderMap s;
     pools := pools s; poolListeners := poolListeners s;
     orderListeners := orderListeners s; failedTxnTimer := t;
     failedTxnCount := failedTxnCount s; failedTxnGasCost := failedTxnGasCost s;
     timers := timers s; fresh := fresh s; pending := pending s;
     trace := trace s |}.

Definition set_failedTxnCount (c : Z) (s : State) : State :=
  {| orderLocks := orderLocks s; badOrderMap := badOrderMap s;
     pools := pools s; poolListeners := poolListeners s;
     orderListeners := orderListeners s; failedTxnTimer := failedTxnTimer s;
     failedTxnCount := c; failedTxnGasCost := failedTxnGasCost s;
     timers := timers s; fresh := fresh s; pending := pending s;
     trace := trace s |}.

Definition set_failedTxnGasCost (g : Z) (s : State) : State :=
  {| orderLocks := orderLocks s; badOrderMap := badOrderMap s;
     pools := pools s; poolListeners := poolListeners s;
     orderListeners := orderListeners s; failedTxnTimer := failedTxnTimer s;
     failedTxnCount := failedTxnCount s; failedTxnGasCost := g;
     timers := timers s; fresh := fresh s; pending := pending s;
     trace := trace s |}.

Definition set_timers (f : list (nat * JsNumber) -> list (nat * JsNumber))
    (s : State) : State :=
  {| orderLocks := orderLocks s; badOrderMap := badOrderMap s;
     pools := pools s; poolListeners := poolListeners s;
     orderListeners := orderListeners s; failedTxnTimer := failedTxnTimer s;
     failedTxnCount := failedTxnCount s; failedTxnGasCost := failedTxnGasCost s;
     timers := f (timers s); fresh := fresh s; pending := pending s;
     trace := trace s |}.

Definition set_fresh (n : nat) (s : State) : State :=
  {| orderLocks := orderLocks s; badOrderMap := badOrderMap s;
     pools := pools s; poolListeners := poolListeners s;
     orderListeners := orderListeners s; failedTxnTimer := failedTxnTimer s;
     failedTxnCount := failedTxnCount s; failedTxnGasCost := failedTxnGasCost s;
     timers := timers s; fresh := n; pending := pending s;
     trace := trace s |}.

Definition set_pending (f : list Task -> list Task) (s : State) : State :=
  {| orderLocks := orderLocks s; badOrderMap := badOrderMap s;
     pools := pools s; poolListeners := poolListeners s;
     orderListeners := orderListeners s; failedTxnTimer := failedTxnTimer s;
     failedTxnCount := failedTxnCount s; failedTxnGasCost := failedTxnGasCost s;
     timers := timers s; fresh := fresh s; pending := f (pending s);
     trace := trace s |}.

Definition set_trace (f : list Event -> list Event) (s : State) : State :=
  {| orderLocks := orderLocks s; badOrderMap := badOrderMap s;
     pools := pools s; poolListeners := poolListeners s;
     orderListeners := orderListeners s; failedTxnTimer := failedTxnTimer s;
     failedTxnCount := failedTxnCount s; failedTxnGasCost := failedTxnGasCost s;
     timers := timers s; fresh := fresh s; pending := pending s;
     trace := f (trace s) |}.

(** ** The monad of the methods

    A method returns ([Ret]), ends the process ([Exit], from
    [process.exit]) or leaves its promise rejected with nobody to catch it
    ([Throw]); in the last two cases what follows it does not run. *)
Inductive outcome (A : Type) :=
| Ret (a : A) (s : State)
| Exit (exitCode : Z) (s : State)
| Throw (s : State).
Arguments Ret {A} a s.
Arguments Exit {A} exitCode s.
Arguments Throw {A} s.

Definition final {A} (o : outcome A) : State :=
  match o with Ret _ s => s | Exit _ s => s | Throw s => s end.

Definition M (A : Type) : Type := State -> outcome A.

#[global] Instance M_ret : MRet M := fun A a s => Ret a s.

#[global] Instance M_bind : MBind M := fun A B k m s =>
  match m s with
  | Ret a s' => k a s'
  | Exit c s' => Exit c s'
  | Throw s' => Throw s'
  end.

Definition gets {A} (f : State -> A) : M A := fun s => Ret (f s) s.
Definition modify (f : State -> State) : M unit := fun s => Ret tt (f s).
Definition process_exit {A} (exitCode : Z) : M A := fun s => Exit exitCode s.
Definition throw {A} : M A := fun s => Throw s.
Definition emit (e : Event) : M unit := modify (set_trace (cons e)).
Definition spawn (t : Task) : M unit := modify (set_pending (cons t)).

(** [if (c) body], with nothing to do otherwise. *)
Definition when (c : bool) (body : M unit) : M unit :=
  if c then body else mret tt.

(** ** UniTradeExecutorService *)

(** [Object.keys(m)]; the order of the keys is not relied upon. *)
Definition keys {K V} `{Countable K} (m : gmap K V) : list K :=
  (map_to_list m).*1.

Section Service.

Variable config : Config.
Variable w : World.

(** The loops of [handleShutdown] over the keys of [poolListeners] and of
    [orderListeners].  They run inside its [try]: would an emitter be
    missing, the [catch] logs and exits with code 1. *)
Fixpoint removePoolListeners (poolsKeys : list string) : M unit :=
  match poolsKeys with
  | [] => mret tt
  | pairAddr :: rest =>
      l ← gets (fun s => poolListeners s !! pairAddr);
      match l with
      | Some emitter =>
          emit (EvRemoveAllListeners emitter);;
          modify (set_poolListeners (delete pairAddr));;
          removePoolListeners rest
      | None => emit EvLogShutdownError;; process_exit 1
      end
  end.

Fixpoint removeOrderListeners (ordersKeys : list string) : M unit :=
  match ordersKeys with
  | [] => mret tt
  | name :: rest =>
      l ← gets (fun s => orderListeners s !! name);
      match l with
      | Some emitter =>
          emit (EvRemoveAllListeners emitter);;
          modify (set_orderListeners (delete name));;
          removeOrderListeners rest
      | None => emit EvLogShutdownError;; process_exit 1
      end
  end.

(** [handleShutdown], up to its only [await]: with no notification to
    send it ends in [process.exit]; with one, the post is sent and the
    rest waits for it ([TShutdownExit]). *)
Definition handleShutdown (exitCode : Z) : M unit :=
  poolsKeys ← gets (fun s => keys (poolListeners s));
  removePoolListeners poolsKeys;;
  ordersKeys ← gets (fun s => keys (orderListeners s));
  removeOrderListeners ordersKeys;;
  if (ExitCodes.GenericError <? exitCode)
     && truthy_string (failureShutdownWebhookUrl config)
  then
    emit (EvFetch (failureShutdownWebhookUrl config) exitCode);;
    spawn (TShutdownExit exitCode)
  else process_exit exitCode.

(** [handleShutdown] after [await fetch]: the post went through and the
    process exits with the code, or it failed and the [catch] logs and
    exits with code 1. *)
Definition handleShutdown_resume (exitCode : Z) : M unit :=
  if fetch w then process_exit exitCode
  else emit EvLogShutdownError;; process_exit 1.

Definition handleError (exitCode : Z) : M unit :=
  when (negb (exitCode =? 0)) (handleShutdown exitCode).

Definition lockOrder (id : Z) : M unit :=
  modify (set_orderLocks <[id := true]>);;
  emit (EvLock id).

Definition unlockOrder (id : Z) : M unit :=
  locked ← gets (fun s => default false (orderLocks s !! id));
  when locked (modify (set_orderLocks (delete id));; emit (EvUnlock id)).

(** The pool it returns is the one stored under [pairAddr]; the callers
    reach it there. *)
Definition getOrCreatePool (pairAddr : string) : M unit :=
  p ← gets (fun s => pools s !! pairAddr);
  match p with
  | Some _ => mret tt
  | None =>
      modify (set_pools <[pairAddr := newTokenPool pairAddr]>);;
      spawn (TCreatePoolChangeListener pairAddr)
  end.

Definition addPoolOrder (id : Z) (order : IUniTradeOrder) : M unit :=
  emit (EvGetPairAddress (tokenIn order) (tokenOut order));;
  match getPairAddress w (tokenIn order) (tokenOut order) with
  | Some pairAddr =>
      getOrCreatePool pairAddr;;
      modify (set_pools (alter (addOrder id order) pairAddr))
  | None => handleError ExitCodes.GenericError
  end.

Definition removePoolOrder (id : Z) (order : IUniTradeOrder) : M unit :=
  emit (EvGetPairAddress (tokenIn order) (tokenOut order));;
  match getPairAddress w (tokenIn order) (tokenOut order) with
  | Some pairAddr =>
      orderPool ← gets (fun s => pools s !! pairAddr);
      match orderPool with
      | Some _ => modify (set_pools (alter (removeOrder id) pairAddr))
      | None => mret tt
      end
  | None => handleError ExitCodes.GenericError
  end.

(** [setTimeout(callback, delay)]: every timeout the service sets has the
    callback [failedTxnTimerExpired]. *)
Definition setTimeout (delay : JsNumber) : M nat :=
  id ← gets fresh;
  modify (set_fresh (S id));;
  modify (set_timers (cons (id, delay)));;
  mret id.

Definition failedTxnTimerExpired : M unit :=
  modify (set_failedTxnCount 0);;
  modify (set_failedTxnGasCost 0);;
  modify (set_failedTxnTimer None).

(** The last block of [handleFailedExecution], "set the timer". *)
Definition setFailedTxnTimer : M unit :=
  when (truthy_string (maxFailureDuration config))
    (timer ← gets failedTxnTimer;
     when (negb (bool_decide (is_Some timer))
           || String.eqb (toLowerCase (resetTimerOnFailure config)) "true")
       (id ← setTimeout (parseInt (maxFailureDuration config) None);
        modify (set_failedTxnTimer (Some id)))).

Definition handleFailedExecution (receipt : JsReceipt) : M unit :=
  if negb (truthy_receipt receipt) then mret tt
  else
    modify (fun s => set_failedTxnCount (failedTxnCount s + 1) s);;
    modify (fun s =>
      set_failedTxnGasCost (failedTxnGasCost s + gasUsed_or_0 receipt) s);;
    count ← gets failedTxnCount;
    when (truthy_string (maxFailureCount config)
          && js_ge count (parseInt (maxFailureCount config) None))
      (handleError ExitCodes.TooManyFailures);;
    cost ← gets failedTxnGasCost;
    when (truthy_string (maxFailureGasCost config)
          && js_ge cost (parseInt (maxFailureGasCost config) None))
      (handleError ExitCodes.TooMuchGasLost);;
    setFailedTxnTimer.

(** The estimate of [executeIfAppropriate]: the override of the
    environment read by [parseInt(_, 10)], or the provider; when the
    provider fails the bad-order counter goes up and, past
    [config.badOrderRetry], [removePoolOrder] is started (not awaited). *)
Definition estimateGas (order : IUniTradeOrder) : M (option Z) :=
  match ESTIMATED_GAS_OVERRIDE config with
  | Some (String c o) =>
      mret (match parseInt (String c o) (Some 10) with
            | Num g => Some g
            | NaN => None
            end)
  | _ =>
      emit (EvGetEstimatedGasForOrder (orderId order));;
      match getEstimatedGasForOrder w (orderId order) with
      | EstimateResolves g => mret g
      | EstimateRejects =>
          modify (set_badOrderMap (fun m =>
            match m !! orderId order with
            | Some n => if n =? 0 then <[orderId order := 1]> m
                        else <[orderId order := n + 1]> m
            | None => <[orderId order := 1]> m
            end));;
          n ← gets (fun s => default 0 (badOrderMap s !! orderId order));
          when (js_gt n (badOrderRetry config))
            (spawn (TRemovePoolOrder (orderId order) order));;
          mret None
      end
  end.

(** [executeIfAppropriate] from the point where the order is locked. *)
Definition attemptExecution (order : IUniTradeOrder) : M bool :=
  lockOrder (orderId order);;
  emit (EvIsInTheMoney order);;
  match isInTheMoney w order with
  | None => throw
  | Some false => unlockOrder (orderId order);; mret false
  | Some true =>
      estimatedGas ← estimateGas order;
      match estimatedGas with
      | Some g =>
          if g =? 0 then unlockOrder (orderId order);; mret false
          else
            emit EvGetPreferredGasPrice;;
            if truthy_num (getPreferredGasPrice w) then
              let gasPrice := default 0 (getPreferredGasPrice w) in
              let gas := g * gasPrice in
              if gas <? executorFee order then
                emit (EvExecuteOrder order g gasPrice);;
                match executeOrder w order g gasPrice with
                | ExecutionResolves executed => mret executed
                | ExecutionRejects receipt =>
                    handleFailedExecution receipt;;
                    unlockOrder (orderId order);;
                    mret false
                end
              else unlockOrder (orderId order);; mret false
            else unlockOrder (orderId order);; mret false
      | None => unlockOrder (orderId order);; mret false
      end
  end.

Definition executeIfAppropriate (order : IUniTradeOrder) : M bool :=
  locked ← gets (fun s => default false (orderLocks s !! orderId order));
  if locked : bool then mret false
  else if negb (orderState order =? OrderState.Placed) then mret false
  else attemptExecution order.

(** *** The listeners

    Each definition below is the callback a [create...Listener] method
    registers for an event of its emitter. *)

(** The loop of the price-sync callback over [ordersKeys], the keys of
    the pool when the loop starts; the pool and the order are looked up
    again at each turn. *)
Fixpoint syncOrders (pairAddr : string) (ordersKeys : list Z) : M unit :=
  match ordersKeys with
  | [] => mret tt
  | key :: rest =>
      p ← gets (fun s => pools s !! pairAddr);
      match p with
      | None => throw
      | Some pool =>
          match orders pool !! key with
          | Some order =>
              executed ← executeIfAppropriate order;
              p' ← gets (fun s => pools s !! pairAddr);
              when (executed && bool_decide (is_Some p'))
                (modify (set_pools (alter (removeOrder (orderId order)) pairAddr)))
          | None => mret tt
          end;;
          syncOrders pairAddr rest
      end
  end.

(** [createPoolChangeListener], on "data". *)
Definition syncData (pairAddr : string) : M unit :=
  p ← gets (fun s => pools s !! pairAddr);
  match p with
  | Some pool =>
      if (getOrderCount pool =? 0)%nat then
        l ← gets (fun s => poolListeners s !! pairAddr);
        match l with
        | Some emitter =>
            emit (EvRemoveAllListeners emitter);;
            modify (set_poolListeners (delete pairAddr));;
            modify (set_pools (delete pairAddr))
        | None => throw
        end
      else syncOrders pairAddr (keys (orders pool))
  | None =>
      l ← gets (fun s => poolListeners s !! pairAddr);
      match l with
      | Some emitter =>
          emit (EvRemoveAllListeners emitter);;
          modify (set_poolListeners (delete pairAddr));;
          modify (set_pools (delete pairAddr))
      | None => throw
      end
  end.

(** [createOrderPlacedListener], on "data"; [addPoolOrder] is started and
    not awaited. *)
Definition orderPlacedData (returnValues : option IUniTradeOrder) : M unit :=
  match returnValues with
  | Some order =>
      executed ← executeIfAppropriate order;
      when (negb executed) (spawn (TAddPoolOrder (orderId order) order))
  | None => mret tt
  end.

(** What [createOrderCancelledListener] and [createOrderExecutedListener]
    do on "data" with the order of the event, in the same words in both.
    [removePoolOrder] is started without [await], but the callback then
    awaits the same [getPairAddress] call, issued after it: the removal
    is over when the callback goes on. *)
Definition untrackOrder (order : IUniTradeOrder) : M unit :=
  removePoolOrder (orderId order) order;;
  emit (EvGetPairAddress (tokenIn order) (tokenOut order));;
  match getPairAddress w (tokenIn order) (tokenOut order) with
  | None => throw
  | Some pairAddr =>
      p ← gets (fun s => pools s !! pairAddr);
      when (match p with
            | None => true
            | Some pool => negb (getOrderCount pool =? 0)%nat
            end)
        (l ← gets (fun s => poolListeners s !! pairAddr);
         match l with
         | Some emitter =>
             emit (EvRemoveAllListeners emitter);;
             modify (set_poolListeners (delete pairAddr))
         | None => mret tt
         end;;
         modify (set_pools (delete pairAddr)))
  end.

(** [createOrderCancelledListener], on "data". *)
Definition orderCancelledData (returnValues : option IUniTradeOrder) : M unit :=
  match returnValues with
  | Some order => untrackOrder order
  | None => mret tt
  end.

(** [createOrderExecutedListener], on "data"; a failed transaction is
    reported to [handleFailedExecution] by its hash. *)
Definition orderExecutedData (hash : string)
    (returnValues : option IUniTradeOrder) : M unit :=
  emit (EvGetTransactionReceipt hash);;
  match getTransactionReceipt w hash with
  | None => throw
  | Some receipt =>
      if match receipt with Some r => negb (status r) | None => false end
      then handleFailedExecution (RString hash)
      else
        match returnValues with
        | Some order => untrackOrder order
        | None => mret tt
        end
  end.

(** [emitter = await events.Name()]: a new emitter. *)
Definition newEmitter (name : string) : M nat :=
  id ← gets fresh;
  modify (set_fresh (S id));;
  emit (EvSubscribe name);;
  mret id.

Definition createPoolChangeListener (pairAddr : string) : M unit :=
  emit (EvGetOrCreatePairContract pairAddr);;
  if getOrCreatePairContract w pairAddr && subscribe w "Sync" then
    emitter ← newEmitter "Sync";
    modify (set_poolListeners <[pairAddr := emitter]>)
  else handleError ExitCodes.GenericError.

(** [createOrderPlacedListener], [createOrderCancelledListener] and
    [createOrderExecutedListener] up to the registration of the
    callbacks: the three differ in the name of the event. *)
Definition createOrderListener (name : string) : M unit :=
  l ← gets (fun s => orderListeners s !! name);
  match l with
  | Some emitter =>
      emit (EvRemoveAllListeners emitter);;
      modify (set_orderListeners (delete name))
  | None => mret tt
  end;;
  if subscribe w name then
    emitter ← newEmitter name;
    modify (set_orderListeners <[name := emitter]>)
  else handleError ExitCodes.GenericError.

Definition createOrderPlacedListener := createOrderListener "OrderPlaced".
Definition createOrderCancelledListener := createOrderListener "OrderCancelled".
Definition createOrderExecutedListener := createOrderListener "OrderExecuted".

Fixpoint addPoolOrders (activeOrders : list IUniTradeOrder) : M unit :=
  match activeOrders with
  | [] => mret tt
  | order :: rest => addPoolOrder (orderId order) order;; addPoolOrders rest
  end.

(** [start], once the providers are loaded and [listOrders] has given
    [activeOrders]. *)
Definition start (activeOrders : list IUniTradeOrder) : M unit :=
  addPoolOrders activeOrders;;
  createOrderPlacedListener;;
  createOrderCancelledListener;;
  createOrderExecutedListener.

(** *** The steps of the service *)

Definition resume (t : Task) : M unit :=
  match t with
  | TRemovePoolOrder id order => removePoolOrder id order
  | TAddPoolOrder id order => addPoolOrder id order
  | TCreatePoolChangeListener pairAddr => createPoolChangeListener pairAddr
  | TShutdownExit exitCode => handleShutdown_resume exitCode
  end.

(** What can happen to the service: an event of one of its emitters, a
    timeout that fires, a termination signal, a waiting call that goes
    on. *)
Inductive Input :=
| Start (activeOrders : list IUniTradeOrder)
| SyncData (pairAddr : string)
| SyncError (pairAddr : string)
| SyncEnd (pairAddr : string)
| OrderPlacedData (returnValues : option IUniTradeOrder)
| OrderCancelledData (returnValues : option IUniTradeOrder)
| OrderExecutedData (hash : string) (returnValues : option IUniTradeOrder)
| OrderListenerError (name : string)
| OrderListenerEnd (name : string)
| TimerFires (id : nat)
| Signal
| Resume (n : nat).

(** An emitter calls back only while the service holds it. *)
Definition listening (name : string) : M bool :=
  gets (fun s => bool_decide (is_Some (orderListeners s !! name))).

Definition step (i : Input) : M unit :=
  match i with
  | Start activeOrders => start activeOrders
  | SyncData pairAddr =>
      l ← gets (fun s => bool_decide (is_Some (poolListeners s !! pairAddr)));
      when l (syncData pairAddr)
  | SyncError pairAddr =>
      l ← gets (fun s => bool_decide (is_Some (poolListeners s !! pairAddr)));
      when l (handleError ExitCodes.GenericError)
  | SyncEnd pairAddr =>
      l ← gets (fun s => bool_decide (is_Some (poolListeners s !! pairAddr)));
      when l (createPoolChangeListener pairAddr)
  | OrderPlacedData returnValues =>
      l ← listening "OrderPlaced";
      when l (orderPlacedData returnValues)
  | OrderCancelledData returnValues =>
      l ← listening "OrderCancelled";
      when l (orderCancelledData returnValues)
  | OrderExecutedData hash returnValues =>
      l ← listening "OrderExecuted";
      when l (orderExecutedData hash returnValues)
  | OrderListenerError name =>
      l ← listening name;
      when l (handleError ExitCodes.GenericError)
  | OrderListenerEnd name =>
      l ← listening name;
      when l (createOrderListener name)
  | TimerFires id =>
      live ← gets (fun s => bool_decide (id ∈ (timers s).*1));
      when live
        (modify (set_timers (filter (fun t => t.1 ≠ id)));;
         failedTxnTimerExpired)
  | Signal => handleShutdown ExitCodes.Success
  | Resume n =>
      t ← gets (fun s => pending s !! n);
      match t with
      | Some t => modify (set_pending (delete n));; resume t
      | None => mret tt
      end
  end.

End Service.

(** The process is still there after a step: the step returned, or left a
    rejection nobody handles. *)
Definition alive {A} (o : outcome A) : Prop :=
  match o with Exit _ _ => False | _ => True end.

(** [run config s s']: the service gets from [s] to [s'] by steps, each
    with the input and the answers of the collaborators of its own. *)
Inductive run (config : Config) : State -> State -> Prop :=
| run_done s : run config s s
| run_next s s' w i :
    run config s s' -> alive (step config w i s') ->
    run config s (final (step config w i s')).

(** ** Vocabulary of the properties *)

(** The execution attempts recorded in a trace, the most recent first. *)
Definition attempted (e : Event) : bool :=
  match e with EvExecuteOrder _ _ _ => true | _ => false end.

Definition executions (t : list Event) : list Event := List.filter attempted t.
Arguments executions : simpl never.

(** The webhook posts recorded in a trace. *)
Definition notified (e : Event) : bool :=
  match e with EvFetch _ _ => true | _ => false end.

Definition notifications (t : list Event) : list Event := List.filter notified t.

(** The gas-estimate step of [executeIfAppropriate] yields [g]: read from
    the override when one is set, answered by the provider otherwise. *)
Definition gasEstimated (config : Config) (w : World)
    (order : IUniTradeOrder) (g : Z) : Prop :=
  match ESTIMATED_GAS_OVERRIDE config with
  | Some (String c o) => parseInt (String c o) (Some 10) = Num g
  | _ => getEstimatedGasForOrder w (orderId order) = EstimateResolves (Some g)
  end.

(** The gas-estimate step fails: no override, and the provider rejects. *)
Definition gasEstimateFails (config : Config) (w : World)
    (order : IUniTradeOrder) : Prop :=
  match ESTIMATED_GAS_OVERRIDE config with
  | Some (String c o) => False
  | _ => getEstimatedGasForOrder w (orderId order) = EstimateRejects
  end.

(** An order is free when its identifier is not in the lock set. *)
Definition unlocked (s : State) (id : Z) : Prop :=
  default false (orderLocks s !! id) = false.

(** [m] keeps [I]: whatever the outcome, [I] holds of the state it leaves. *)
Definition preserves {A} (I : State -> Prop) (m : M A) : Prop :=
  forall s, I s -> I (final (m s)).

(** The receipts the execution collaborator can reject with report a gas
    consumption that is not negative. *)
Definition receipts_sound (w : World) : Prop :=
  forall order g p r,
    executeOrder w order g p = ExecutionRejects r -> 0 <= gasUsed_or_0 r.

(** *** Sample data *)

Definition sampleConfig : Config :=
  {| badOrderRetry := Num 2;
     maxFailureCount := "3";
     maxFailureGasCost := "1000000";
     maxFailureDuration := "60000";
     resetTimerOnFailure := "false";
     failureShutdownWebhookUrl := "";
     ESTIMATED_GAS_OVERRIDE := None |}.

Definition withWebhook (c : Config) : Config :=
  {| badOrderRetry := badOrderRetry c;
     maxFailureCount := maxFailureCount c;
     maxFailureGasCost := maxFailureGasCost c;
     maxFailureDuration := maxFailureDuration c;
     resetTimerOnFailure := resetTimerOnFailure c;
     failureShutdownWebhookUrl := "https://hooks.example/executor";
     ESTIMATED_GAS_OVERRIDE := ESTIMATED_GAS_OVERRIDE c |}.

Definition withReset (c : Config) : Config :=
  {| badOrderRetry := badOrderRetry c;
     maxFailureCount := maxFailureCount c;
     maxFailureGasCost := maxFailureGasCost c;
     maxFailureDuration := maxFailureDuration c;
     resetTimerOnFailure := "true";
     failureShutdownWebhookUrl := failureShutdownWebhookUrl c;
     ESTIMATED_GAS_OVERRIDE := ESTIMATED_GAS_OVERRIDE c |}.

Definition sampleOrder (id fee : Z) : IUniTradeOrder :=
  {| orderId := id; orderType := 0; maker := "0xmaker";
     tokenIn := "0xtokenA"; tokenOut := "0xtokenB";
     amountInOffered := 1000; amountOutExpected := 900;
     executorFee := fee; totalEthDeposited := 0;
     orderState := OrderState.Placed; deflationary := false |}.

Definition sampleReceipt (gas : Z) : JsReceipt :=
  RObject {| transactionHash := "0xfailed"; gasUsed := Some gas; status := false |}.

(** A world where every order is in the money, the estimate is [estimate]
    and the gas price 10, on the one market "0xpair". *)
Definition sampleWorld (estimate : GasEstimate) (execution : Execution) : World :=
  {| getPairAddress := fun _ _ => Some "0xpair";
     isInTheMoney := fun _ => Some true;
     getEstimatedGasForOrder := fun _ => estimate;
     getPreferredGasPrice := Some 10;
     executeOrder := fun _ _ _ => execution;
     getOrCreatePairContract := fun _ => true;
     subscribe := fun _ => true;
     getTransactionReceipt := fun _ => Some None;
     fetch := true |}.

(** The state after a sequence of inputs, each with its world, from [s];
    the sequence stops where the process exits. *)
Fixpoint after (config : Config) (steps : list (World * Input)) (s : State) : State :=
  match steps with
  | [] => s
  | (w, i) :: rest =>
      match step config w i s with
      | Exit _ s' => s'
      | o => after config rest (final o)
      end
  end.

(** The service after [start] with the given open orders, all on the
    market "0xpair", once the price-sync subscription of that market is
    in place. *)
Definition tracking (openOrders : list IUniTradeOrder) : State :=
  let w := sampleWorld (EstimateResolves (Some 12)) (ExecutionResolves true) in
  after sampleConfig [(w, Start openOrders); (w, Resume 0%nat)] initial.

(** What a teardown leaves alone: all but the two maps of emitters and
    the trace, where it adds neither a webhook post nor an attempt. *)
Definition teardown_only (s s' : State) : Prop :=
  orderLocks s' = orderLocks s /\
  badOrderMap s' = badOrderMap s /\
  pools s' = pools s /\
  failedTxnTimer s' = failedTxnTimer s /\
  failedTxnCount s' = failedTxnCount s /\
  failedTxnGasCost s' = failedTxnGasCost s /\
  timers s' = timers s /\
  fresh s' = fresh s /\
  pending s' = pending s /\
  notifications (trace s') = notifications (trace s).

(** The two thresholds of [handleFailedExecution], for a count [c] and a
    cost [g]. *)
Definition tooManyFailures (config : Config) (c : Z) : bool :=
  truthy_string (maxFailureCount config)
  && js_ge c (parseInt (maxFailureCount config) None).

Definition tooMuchGasLost (config : Config) (g : Z) : bool :=
  truthy_string (maxFailureGasCost config)
  && js_ge g (parseInt (maxFailureGasCost config) None).

(** [handleShutdown] sends the webhook post for this exit code. *)
Definition notifies (config : Config) (exitCode : Z) : bool :=
  (ExitCodes.GenericError <? exitCode)
  && truthy_string (failureShutdownWebhookUrl config).

(** [setFailedTxnTimer] sets a timeout in this state. *)
Definition armsTimer (config : Config) (s : State) : bool :=
  truthy_string (maxFailureDuration config)
  && (negb (bool_decide (is_Some (failedTxnTimer s)))
      || String.eqb (toLowerCase (resetTimerOnFailure config)) "true").

(** What recording a failure leaves alone besides the counters and the
    timer: the shutdowns it starts only add the waiting exits [q] and the
    webhook posts [n]. *)
Definition shutdown_only (q : list Task) (n : list Event) (s s' : State) : Prop :=
  orderLocks s' = orderLocks s /\
  badOrderMap s' = badOrderMap s /\
  pools s' = pools s /\
  failedTxnTimer s' = failedTxnTimer s /\
  failedTxnCount s' = failedTxnCount s /\
  failedTxnGasCost s' = failedTxnGasCost s /\
  timers s' = timers s /\
  fresh s' = fresh s /\
  pending s' = q ++ pending s /\
  notifications (trace s') = n ++ notifications (trace s).

Definition shutdownTasks (b : bool) (exitCode : Z) : list Task :=
  if b then [TShutdownExit exitCode] else [].

Definition shutdownPosts (config : Config) (b : bool) (exitCode : Z) : list Event :=
  if b then [EvFetch (failureShutdownWebhookUrl config) exitCode] else [].

(** *** What the service does along its runs *)

(** The events whose emission depends on nothing: all but the webhook
    post, the question to the gas provider and the execution attempt. *)
Definition plain (e : Event) : bool :=
  match e with
  | EvFetch _ _ | EvGetEstimatedGasForOrder _ | EvExecuteOrder _ _ _ => false
  | _ => true
  end.

(** The gas estimate is taken from the environment
    ([process.env.ESTIMATED_GAS_OVERRIDE] is truthy). *)
Definition overridden (config : Config) : bool :=
  match ESTIMATED_GAS_OVERRIDE config with
  | Some (String _ _) => true
  | _ => false
  end.

(** An execution attempt is for a placed order, with a gas estimate and a
    gas price that are not zero and a cost below the fee of the order. *)
Definition profitable (e : Event) : Prop :=
  match e with
  | EvExecuteOrder o g p =>
      orderState o = OrderState.Placed /\ g <> 0 /\ p <> 0 /\ g * p < executorFee o
  | _ => True
  end.

(** A webhook post goes to the configured URL, which is not empty, and
    carries one of the two failure codes. *)
Definition failurePost (config : Config) (e : Event) : Prop :=
  match e with
  | EvFetch url c =>
      url = failureShutdownWebhookUrl config /\ url <> "" /\
      (c = ExitCodes.TooManyFailures \/ c = ExitCodes.TooMuchGasLost)
  | _ => True
  end.

(** The questions to the gas provider recorded in a trace. *)
Definition asked (e : Event) : bool :=
  match e with EvGetEstimatedGasForOrder _ => true | _ => false end.

(** At most one timeout is pending, and it is the one [failedTxnTimer]
    refers to. *)
Definition single_timer (s : State) : Prop :=
  match failedTxnTimer s with
  | Some t => exists d, timers s = [(t, d)]
  | None => timers s = []
  end.


(** The gas-estimate step yields nothing to compute a cost from: the
    override, or the answer of the provider, is undefined, not a number,
    or zero. *)
Definition noUsableEstimate (config : Config) (w : World)
    (order : IUniTradeOrder) : Prop :=
  match ESTIMATED_GAS_OVERRIDE config with
  | Some (String c o) =>
      parseInt (String c o) (Some 10) = NaN \/
      parseInt (String c o) (Some 10) = Num 0
  | _ =>
      getEstimatedGasForOrder w (orderId order) = EstimateResolves None \/
      getEstimatedGasForOrder w (orderId order) = EstimateResolves (Some 0)
  end.

(** *** More sample data *)

Definition withOverride (estimatedGas : string) (c : Config) : Config :=
  {| badOrderRetry := badOrderRetry c;
     maxFailureCount := maxFailureCount c;
     maxFailureGasCost := maxFailureGasCost c;
     maxFailureDuration := maxFailureDuration c;
     resetTimerOnFailure := resetTimerOnFailure c;
     failureShutdownWebhookUrl := failureShutdownWebhookUrl c;
     ESTIMATED_GAS_OVERRIDE := Some estimatedGas |}.

(** The world [w] with no order in the money. *)
Definition outOfTheMoney (w : World) : World :=
  {| getPairAddress := getPairAddress w;
     isInTheMoney := fun _ => Some false;
     getEstimatedGasForOrder := getEstimatedGasForOrder w;
     getPreferredGasPrice := getPreferredGasPrice w;
     executeOrder := executeOrder w;
     getOrCreatePairContract := getOrCreatePairContract w;
     subscribe := subscribe w;
     getTransactionReceipt := getTransactionReceipt w;
     fetch := fetch w |}.



(** The world [w] where every transaction has the receipt [r]. *)
Definition withReceipt (r : Receipt) (w : World) : World :=
  {| getPairAddress := getPairAddress w;
     isInTheMoney := isInTheMoney w;
     getEstimatedGasForOrder := getEstimatedGasForOrder w;
     getPreferredGasPrice := getPreferredGasPrice w;
     executeOrder := executeOrder w;
     getOrCreatePairContract := getOrCreatePairContract w;
     subscribe := subscribe w;
     getTransactionReceipt := fun _ => Some (Some r);
     fetch := fetch w |}.

(** The service tracking order 1 while that order is being executed: the
    order was placed, its execution resolved with a falsy value (the lock
    stays), and the order went to the pool of its market. *)
Definition busy : State :=
  let w := sampleWorld (EstimateResolves (Some 8)) (ExecutionResolves false) in
  after sampleConfig
    [(w, OrderPlacedData (Some (sampleOrder 1 100)));
     (w, Resume 0%nat); (w, Resume 0%nat)]
    (tracking []).

(** ** config.ts: the settings as they are read from the environment *)

Module ConfigFile.

(** [IConfig], its nested objects flattened. *)
Record IConfig := {
  account_privateKey : string;
  provider_uri : string;
  unitrade_address : string;
  uniswap_factoryAddress : string;
  uniswap_routerAddress : string;
  percentSlippage : string;
  gasPriceLevel : string;
  badOrderRetry : string;
  maxFailureCount : string;
  maxFailureGasCost : string;
  maxFailureDuration : string;
  resetTimerOnFailure : string;
  failureShutdownWebhookUrl : string;
}.

(** [process.env[key]] *)
Definition getOptionalEnv (env : gmap string string) (key : string)
  : option string := env !! key.

(** [getEnv]: the value, or the message of the error it throws when the
    variable is not set or is empty. *)
Definition getEnv (env : gmap string string) (key : string) : string + string :=
  match env !! key with
  | Some (String c v) => inr (String c v)
  | _ => inl (String.append "env var " (String.append key " not set"))
  end.

(** [value || fallback] for a string that may be undefined. *)
Definition orElse (value : option string) (fallback : string) : string :=
  match value with
  | Some (String c v) => String c v
  | _ => fallback
  end.

(** The initialisers of an object literal run in order; the first that
    throws ends the evaluation. *)
Definition andThen {A B} (r : string + A) (k : A -> string + B) : string + B :=
  match r with
  | inl e => inl e
  | inr a => k a
  end.

(** The object [config], or the message of the error thrown while it is
    built. *)
Definition config (env : gmap string string) : string + IConfig :=
  andThen (getEnv env "ACCOUNT_PRIVATE_KEY") (fun privateKey =>
  andThen (getEnv env "PROVIDER_URI") (fun uri =>
  andThen (getEnv env "UNITRADE_ADDRESS") (fun address =>
  andThen (getEnv env "UNISWAP_FACTORY_ADDRESS") (fun factoryAddress =>
  andThen (getEnv env "UNISWAP_ROUTER_ADDRESS") (fun routerAddress =>
  andThen (getEnv env "PERCENT_SLIPPAGE") (fun slippage =>
  andThen (getEnv env "GAS_PRICE_LEVEL") (fun level =>
  andThen (getEnv env "BAD_ORDER_RETRY") (fun retry =>
  andThen (getEnv env "MAX_FAILURE_COUNT") (fun count =>
  andThen (getEnv env "MAX_FAILURE_GAS_COST") (fun cost =>
  andThen (getEnv env "MAX_FAILURE_DURATION") (fun duration =>
  inr {| account_privateKey := privateKey;
         provider_uri := uri;
         unitrade_address := address;
         uniswap_factoryAddress := factoryAddress;
         uniswap_routerAddress := routerAddress;
         percentSlippage := slippage;
         gasPriceLevel := level;
         badOrderRetry := retry;
         maxFailureCount := count;
         maxFailureGasCost := cost;
         maxFailureDuration := duration;
         resetTimerOnFailure :=
           orElse (getOptionalEnv env "RESET_TIMER_ON_FAILURE") "false";
         failureShutdownWebhookUrl :=
           orElse (getOptionalEnv env "FAILURE_SHUTDOWN_WEBHOOK_URL") "" |}
  ))))))))))).

(** The variables [config] cannot be built without, in the order it reads
    them. *)
Definition required : list string :=
  ["ACCOUNT_PRIVATE_KEY"; "PROVIDER_URI"; "UNITRADE_ADDRESS";
   "UNISWAP_FACTORY_ADDRESS"; "UNISWAP_ROUTER_ADDRESS"; "PERCENT_SLIPPAGE";
   "GAS_PRICE_LEVEL"; "BAD_ORDER_RETRY"; "MAX_FAILURE_COUNT";
   "MAX_FAILURE_GAS_COST"; "MAX_FAILURE_DURATION"].

(** The variable is set, and not to the empty string. *)
Definition isSet (env : gmap string string) (key : string) : bool :=
  match env !! key with
  | Some (String _ _) => true
  | _ => false
  end.

(** An environment with the required variables and no other. *)
Definition sampleEnv : gmap string string :=
  list_to_map
    [("ACCOUNT_PRIVATE_KEY", "0xkey"); ("PROVIDER_URI", "wss://node.example");
     ("UNITRADE_ADDRESS", "0xunitrade"); ("UNISWAP_FACTORY_ADDRESS", "0xfactory");
     ("UNISWAP_ROUTER_ADDRESS", "0xrouter"); ("PERCENT_SLIPPAGE", "1");
     ("GAS_PRICE_LEVEL", "fast"); ("BAD_ORDER_RETRY", "2");
     ("MAX_FAILURE_COUNT", "3"); ("MAX_FAILURE_GAS_COST", "1000000");
     ("MAX_FAILURE_DURATION", "60000")].

Definition sampleSettings : IConfig :=
  {| account_privateKey := "0xkey";
     provider_uri := "wss://node.example";
     unitrade_address := "0xunitrade";
     uniswap_factoryAddress := "0xfactory";
     uniswap_routerAddress := "0xrouter";
     percentSlippage := "1";
     gasPriceLevel := "fast";
     badOrderRetry := "2";
     maxFailureCount := "3";
     maxFailureGasCost := "1000000";
     maxFailureDuration := "60000";
     resetTimerOnFailure := "false";
     failureShutdownWebhookUrl := "" |}.

End ConfigFile.

(** * Properties *)

(** ** The readings of the settings *)

Example parseInt_samples :
  parseInt "3" None = Num 3 /\ parseInt "  -42px" None = Num (-42) /\
  parseInt "0x1f" None = Num 31 /\ parseInt "0x1f" (Some 10) = Num 0 /\
  parseInt "abc" None = NaN /\ parseInt "" None = NaN /\
  parseInt "60000" None = Num 60000.
Proof. repeat split; reflexivity. Qed.

Example toLowerCase_samples :
  toLowerCase "TRUE" = "true" /\ toLowerCase "True" = "true" /\
  toLowerCase "false" = "false".
Proof. repeat split; reflexivity. Qed.

(** A comparison with a setting that does not read as a number is false:
    such a threshold is never reached. *)
Lemma js_ge_spec a b : js_ge a b = true <-> exists n, b = Num n /\ n <= a.
Proof.
  destruct b as [| n]; cbn.
  - split; [done | by intros (n & ? & _)].
  - rewrite Z.leb_le. split; [eauto | by intros (m & [= ->] & ?)].
Qed.

Lemma js_gt_spec a b : js_gt a b = true <-> exists n, b = Num n /\ n < a.
Proof.
  destruct b as [| n]; cbn.
  - split; [done | by intros (n & ? & _)].
  - rewrite Z.ltb_lt. split; [eauto | by intros (m & [= ->] & ?)].
Qed.

(** ** The monad *)

Lemma preserves_ret {A} (I : State -> Prop) (a : A) : preserves I (mret a).
Proof. intros s Hs. exact Hs. Qed.

Lemma preserves_bind {A B} (I : State -> Prop) (m : M A) (k : A -> M B) :
  preserves I m -> (forall a, preserves I (k a)) -> preserves I (m ≫= k).
Proof.
  intros Hm Hk s Hs. unfold mbind, M_bind.
  specialize (Hm s Hs). destruct (m s) as [a s'|c s'|s']; simpl in *; auto.
  apply Hk, Hm.
Qed.

Lemma preserves_gets {A} (I : State -> Prop) (f : State -> A) :
  preserves I (gets f).
Proof. intros s Hs. exact Hs. Qed.

Lemma preserves_gets_bind {A B} (I : State -> Prop) (f : State -> A)
    (k : A -> M B) :
  (forall s, I s -> I (final (k (f s) s))) -> preserves I (gets f ≫= k).
Proof. intros Hk s Hs. apply Hk, Hs. Qed.

Lemma preserves_modify (I : State -> Prop) (f : State -> State) :
  (forall s, I s -> I (f s)) -> preserves I (modify f).
Proof. intros Hf s Hs. apply Hf, Hs. Qed.

Lemma preserves_exit {A} (I : State -> Prop) c :
  preserves I (process_exit c : M A).
Proof. intros s Hs. exact Hs. Qed.

Lemma preserves_throw {A} (I : State -> Prop) : preserves I (throw : M A).
Proof. intros s Hs. exact Hs. Qed.

Lemma preserves_when (I : State -> Prop) c m :
  preserves I m -> preserves I (when c m).
Proof. intros Hm. destruct c; [exact Hm | apply preserves_ret]. Qed.

(** One step of a proof that a method keeps an invariant: follow the
    structure of the method down to its updates of the state. *)
Ltac pres_step :=
  lazymatch goal with
  | |- preserves _ (mret _) => apply preserves_ret
  | |- preserves _ (_ ≫= _) => apply preserves_bind; [| intros ?]
  | |- preserves _ (gets _) => apply preserves_gets
  | |- preserves _ (when _ _) => apply preserves_when
  | |- preserves _ (process_exit _) => apply preserves_exit
  | |- preserves _ throw => apply preserves_throw
  | |- preserves _ (match ?x with _ => _ end) => destruct x
  end.

(** ** Invariants of the methods

    An invariant that looks only at the lock set, at the two counters of
    failed transactions and at the execution attempts made is kept by
    every method that leaves these alone; the hypotheses below say what
    else it must stand for each method to keep it. *)

Section Invariant.

Variable config : Config.
Variable I : State -> Prop.

Hypothesis I_frame : forall s s',
  orderLocks s' = orderLocks s ->
  failedTxnCount s' = failedTxnCount s ->
  failedTxnGasCost s' = failedTxnGasCost s ->
  executions (trace s') = executions (trace s) ->
  I s -> I s'.

Ltac framed :=
  apply preserves_modify;
  let s := fresh "s" in
  let Hs := fresh "Hs" in
  intros s Hs; apply (I_frame s);
  [reflexivity | reflexivity | reflexivity | reflexivity | exact Hs].

Ltac pres :=
  repeat first
    [ pres_step
    | progress unfold emit, spawn
    | framed ].

Lemma removePoolListeners_preserves ks :
  preserves I (removePoolListeners ks).
Proof. induction ks as [|k ks IH]; simpl; pres. exact IH. Qed.

Lemma removeOrderListeners_preserves ks :
  preserves I (removeOrderListeners ks).
Proof. induction ks as [|k ks IH]; simpl; pres. exact IH. Qed.

Lemma handleShutdown_preserves c : preserves I (handleShutdown config c).
Proof.
  unfold handleShutdown.
  pres; auto using removePoolListeners_preserves, removeOrderListeners_preserves.
Qed.

Lemma handleShutdown_resume_preserves w c :
  preserves I (handleShutdown_resume w c).
Proof. unfold handleShutdown_resume. pres. Qed.

Lemma handleError_preserves c : preserves I (handleError config c).
Proof. unfold handleError. pres; auto using handleShutdown_preserves. Qed.

Lemma getOrCreatePool_preserves p : preserves I (getOrCreatePool p).
Proof. unfold getOrCreatePool. pres. Qed.

Lemma addPoolOrder_preserves w id o : preserves I (addPoolOrder config w id o).
Proof.
  unfold addPoolOrder.
  pres; auto using getOrCreatePool_preserves, handleError_preserves.
Qed.

Lemma removePoolOrder_preserves w id o :
  preserves I (removePoolOrder config w id o).
Proof. unfold removePoolOrder. pres; auto using handleError_preserves. Qed.

Lemma newEmitter_preserves name : preserves I (newEmitter name).
Proof. unfold newEmitter. pres. Qed.

Lemma createPoolChangeListener_preserves w p :
  preserves I (createPoolChangeListener config w p).
Proof.
  unfold createPoolChangeListener.
  pres; auto using newEmitter_preserves, handleError_preserves.
Qed.

Lemma createOrderListener_preserves w name :
  preserves I (createOrderListener config w name).
Proof.
  unfold createOrderListener.
  pres; auto using newEmitter_preserves, handleError_preserves.
Qed.

Lemma addPoolOrders_preserves w os : preserves I (addPoolOrders config w os).
Proof.
  induction os as [|o os IH]; simpl; pres; [apply addPoolOrder_preserves | exact IH].
Qed.

Lemma start_preserves w os : preserves I (start config w os).
Proof.
  unfold start, createOrderPlacedListener, createOrderCancelledListener,
    createOrderExecutedListener.
  pres; auto using addPoolOrders_preserves, createOrderListener_preserves.
Qed.

Lemma resume_preserves w t : preserves I (resume config w t).
Proof.
  destruct t; simpl;
    auto using removePoolOrder_preserves, addPoolOrder_preserves,
      createPoolChangeListener_preserves, handleShutdown_resume_preserves.
Qed.

Lemma setTimeout_preserves d : preserves I (setTimeout d).
Proof. unfold setTimeout. pres. Qed.

(** The failure recorder: the invariant must stand one more failure and
    the gas of its receipt. *)

Variable goodGas : Z -> Prop.

Hypothesis I_count : forall s,
  I s -> I (set_failedTxnCount (failedTxnCount s + 1) s).

Hypothesis I_cost : forall s g,
  goodGas g -> I s -> I (set_failedTxnGasCost (failedTxnGasCost s + g) s).

Lemma handleFailedExecution_preserves r :
  goodGas (gasUsed_or_0 r) -> preserves I (handleFailedExecution config r).
Proof.
  intros Hr. unfold handleFailedExecution.
  destruct (negb (truthy_receipt r)); [apply preserves_ret |].
  apply preserves_bind; [apply preserves_modify; auto | intros _].
  apply preserves_bind; [apply preserves_modify; auto | intros _].
  unfold setFailedTxnTimer.
  pres; auto using handleError_preserves, setTimeout_preserves.
Qed.

(** The execution decision: the invariant must stand the locking of any
    order, the unlocking of the orders that are [unlockable], and an
    execution attempt; an order that is not [unlockable] is one the
    invariant holds locked. *)

Variable unlockable : Z -> Prop.

Hypothesis I_lock : forall id s,
  I s -> I (set_orderLocks <[id := true]> s).

Hypothesis I_unlock : forall id s,
  unlockable id -> I s -> I (set_orderLocks (delete id) s).

Hypothesis I_attempt : forall e s, I s -> I (set_trace (cons e) s).

Hypothesis I_unlocked : forall id s, I s -> unlocked s id -> unlockable id.

Variable w : World.

Hypothesis w_goodGas : forall order g p r,
  executeOrder w order g p = ExecutionRejects r -> goodGas (gasUsed_or_0 r).

Lemma unlockOrder_preserves id : unlockable id -> preserves I (unlockOrder id).
Proof.
  intros Hid. unfold unlockOrder. pres.
  apply preserves_modify; auto.
Qed.

Lemma estimateGas_preserves o : preserves I (estimateGas config w o).
Proof. unfold estimateGas. pres. Qed.

Lemma attemptExecution_preserves o :
  unlockable (orderId o) -> preserves I (attemptExecution config w o).
Proof.
  intros Hid. unfold attemptExecution, lockOrder.
  apply preserves_bind; [| intros _].
  { apply preserves_bind; [apply preserves_modify; auto | intros _]. pres. }
  apply preserves_bind; [pres | intros _].
  destruct (isInTheMoney w o) as [[|]|]; [| | apply preserves_throw].
  2:{ pres. by apply unlockOrder_preserves. }
  apply preserves_bind; [apply estimateGas_preserves | intros [g|]].
  2:{ pres. by apply unlockOrder_preserves. }
  destruct (g =? 0); [pres; by apply unlockOrder_preserves |].
  apply preserves_bind; [pres | intros _].
  destruct (truthy_num _); [| pres; by apply unlockOrder_preserves].
  cbv zeta.
  destruct (_ <? _); [| pres; by apply unlockOrder_preserves].
  apply preserves_bind; [apply preserves_modify; auto | intros _].
  destruct (executeOrder w o g _) as [r|b] eqn:He; [| apply preserves_ret].
  apply preserves_bind; [| intros _].
  { eapply handleFailedExecution_preserves, w_goodGas, He. }
  pres. by apply unlockOrder_preserves.
Qed.

Lemma executeIfAppropriate_preserves o :
  preserves I (executeIfAppropriate config w o).
Proof.
  unfold executeIfAppropriate. apply preserves_gets_bind. intros s Hs.
  destruct (default false (orderLocks s !! orderId o)) eqn:Hl; [exact Hs |].
  destruct (negb _); [exact Hs |].
  apply attemptExecution_preserves; [| exact Hs].
  eapply I_unlocked; eauto.
Qed.

(** The listeners and the steps. *)

Hypothesis goodGas_0 : goodGas 0.

Lemma syncOrders_preserves p ks : preserves I (syncOrders config w p ks).
Proof.
  induction ks as [|k ks IH]; simpl; [apply preserves_ret |].
  pres; auto using executeIfAppropriate_preserves.
Qed.

Lemma syncData_preserves p : preserves I (syncData config w p).
Proof. unfold syncData. pres; apply syncOrders_preserves. Qed.

Lemma orderPlacedData_preserves rv : preserves I (orderPlacedData config w rv).
Proof. unfold orderPlacedData. pres. apply executeIfAppropriate_preserves. Qed.

Lemma untrackOrder_preserves o : preserves I (untrackOrder config w o).
Proof. unfold untrackOrder. pres. apply removePoolOrder_preserves. Qed.

Lemma orderCancelledData_preserves rv :
  preserves I (orderCancelledData config w rv).
Proof. unfold orderCancelledData. pres. apply untrackOrder_preserves. Qed.

Lemma orderExecutedData_preserves h rv :
  preserves I (orderExecutedData config w h rv).
Proof.
  unfold orderExecutedData. pres.
  - apply handleFailedExecution_preserves. exact goodGas_0.
  - apply untrackOrder_preserves.
Qed.

Lemma step_preserves i :
  (forall id, i <> TimerFires id) -> preserves I (step config w i).
Proof.
  intros Hi. destruct i; simpl; unfold listening;
    try (pres;
         auto using start_preserves, syncData_preserves, handleError_preserves,
           createPoolChangeListener_preserves, orderPlacedData_preserves,
           orderCancelledData_preserves, orderExecutedData_preserves,
           createOrderListener_preserves, handleShutdown_preserves,
           resume_preserves; fail).
  by destruct (Hi id).
Qed.

(** With an invariant that also stands the expiry of the timer, every
    step keeps it. *)
Hypothesis I_expired : forall s,
  I s -> I (set_failedTxnTimer None (set_failedTxnGasCost 0 (set_failedTxnCount 0 s))).

Lemma step_preserves_all i : preserves I (step config w i).
Proof.
  destruct i; try (apply step_preserves; discriminate).
  simpl. apply preserves_gets_bind. intros s Hs.
  destruct (bool_decide _); [| exact Hs].
  apply (I_expired (set_timers (filter (fun t => t.1 ≠ id)) s)).
  by apply (I_frame s).
Qed.

End Invariant.

(** ** The execution decision *)


Lemma unlockOrder_eq id s :
  unlockOrder id s =
    if default false (orderLocks s !! id)
    then Ret tt (set_trace (cons (EvUnlock id)) (set_orderLocks (delete id) s))
    else Ret tt s.
Proof. unfold unlockOrder, mbind, M_bind, gets. by destruct (default _ _). Qed.


Lemma executeIfAppropriate_early config w order s :
  orderLocks s !! orderId order = Some true \/
  orderState order <> OrderState.Placed ->
  executeIfAppropriate config w order s = Ret false s.
Proof.
  intros H. unfold executeIfAppropriate, mbind, M_bind, gets.
  destruct H as [H | H].
  - by rewrite H.
  - destruct (default false _); [done |].
    by destruct (Z.eqb_spec (orderState order) OrderState.Placed).
Qed.

(** [executeIfAppropriate] on a free, placed, profitable order with a gas
    estimate and a gas price: the state [s1] at the comparison of the cost
    with the fee has the order locked and no attempt made, and the
    comparison decides what follows. *)
Lemma executeIfAppropriate_at_gate config w order s g p :
  unlocked s (orderId order) ->
  orderState order = OrderState.Placed ->
  isInTheMoney w order = Some true ->
  gasEstimated config w order g -> g <> 0 ->
  getPreferredGasPrice w = Some p -> p <> 0 ->
  exists s1,
    orderLocks s1 = <[orderId order := true]> (orderLocks s) /\
    executions (trace s1) = executions (trace s) /\
    pending s1 = pending s /\
    executeIfAppropriate config w order s =
      if g * p <? executorFee order then
        match executeOrder w order g p with
        | ExecutionResolves b =>
            Ret b (set_trace (cons (EvExecuteOrder order g p)) s1)
        | ExecutionRejects r =>
            (handleFailedExecution config r;;
             unlockOrder (orderId order);;
             mret false)
              (set_trace (cons (EvExecuteOrder order g p)) s1)
        end
      else
        Ret false
          (set_trace (cons (EvUnlock (orderId order)))
             (set_orderLocks (delete (orderId order)) s1)).
Proof.
  intros Hl Hp Hm Hg Hg0 Hpr Hp0.
  unfold executeIfAppropriate, attemptExecution, estimateGas, gasEstimated,
    unlocked in *.
  cbv [mbind M_bind mret M_ret gets modify emit spawn when lockOrder unlockOrder].
  rewrite Hl, Hp, Hm, Hpr. cbn.
  destruct (Z.eqb_spec p 0) as [|_]; [done |].
  destruct (ESTIMATED_GAS_OVERRIDE config) as [[|c o]|]; rewrite Hg;
    (destruct (Z.eqb_spec g 0) as [|_]; [done |]); cbn;
    (eexists; split; [| split; [| split]]; cycle 3;
     [ destruct (g * p <? executorFee order); cbn;
       [ destruct (executeOrder w order g p); reflexivity
       | rewrite lookup_insert_eq; reflexivity ]
     | reflexivity | reflexivity | reflexivity ]).
Qed.

(** C6: when the order's id is in the execution lock set, or the order is
    not in state Placed, [executeIfAppropriate] returns false and leaves
    the whole state as it found it: no field of the service changes and the
    trace gains no event, so no lock was taken and no collaborator called. *)
Theorem executeIfAppropriate_skips config w order s :
  orderLocks s !! orderId order = Some true \/
  orderState order <> OrderState.Placed ->
  executeIfAppropriate config w order s = Ret false s.
Proof. apply executeIfAppropriate_early. Qed.


Lemma executeIfAppropriate_skips_witness :
  executeIfAppropriate sampleConfig
    (sampleWorld (EstimateResolves (Some 8)) (ExecutionResolves true))
    (sampleOrder 1 100)
    (set_orderLocks <[1 := true]> initial)
  = Ret false (set_orderLocks <[1 := true]> initial).
Proof. apply executeIfAppropriate_skips. left. reflexivity. Defined.


(** ** The pool registry *)

Lemma removePoolOrder_removes config w id order s pa pool :
  getPairAddress w (tokenIn order) (tokenOut order) = Some pa ->
  pools s !! pa = Some pool ->
  exists s', removePoolOrder config w id order s = Ret tt s' /\
    pools s' = <[pa := removeOrder id pool]> (pools s) /\
    poolListeners s' = poolListeners s /\
    orderLocks s' = orderLocks s /\
    pending s' = pending s.
Proof.
  intros Hpa Hpool. unfold removePoolOrder.
  cbv [mbind M_bind mret M_ret gets modify emit]. rewrite Hpa. cbn.
  rewrite Hpool. eexists. split; [reflexivity |]. cbn. split; [| done].
  apply map_eq. intros k. destruct (decide (pa = k)) as [-> |].
  - by rewrite lookup_alter_eq, lookup_insert_eq, Hpool.
  - by rewrite lookup_alter_ne, lookup_insert_ne.
Qed.

Lemma removePoolOrder_no_pool config w id order s pa :
  getPairAddress w (tokenIn order) (tokenOut order) = Some pa ->
  pools s !! pa = None ->
  removePoolOrder config w id order s =
    Ret tt (set_trace (cons (EvGetPairAddress (tokenIn order) (tokenOut order))) s).
Proof.
  intros Hpa Hpool. unfold removePoolOrder.
  cbv [mbind M_bind mret M_ret gets modify emit]. rewrite Hpa. cbn.
  by rewrite Hpool.
Qed.

(** ** The bad-order retry counter *)

(** C7: when the gas estimate fails, the retry counter of the order goes up
    by one (from 0 when the order had none), [removePoolOrder] is started
    for the order exactly when the new count is greater than
    [config.badOrderRetry], the lock is released and the result is false;
    the removal, once it runs, takes the order out of the pool of its
    market. *)
Theorem gas_estimate_failure config w order s :
  unlocked s (orderId order) ->
  orderState order = OrderState.Placed ->
  isInTheMoney w order = Some true ->
  gasEstimateFails config w order ->
  let n := default 0 (badOrderMap s !! orderId order) + 1 in
  exists s',
    executeIfAppropriate config w order s = Ret false s' /\
    badOrderMap s' = <[orderId order := n]> (badOrderMap s) /\
    orderLocks s' !! orderId order = None /\
    pools s' = pools s /\
    pending s' =
      (if js_gt n (badOrderRetry config)
       then TRemovePoolOrder (orderId order) order :: pending s
       else pending s) /\
    (forall c, badOrderRetry config = Num c ->
       js_gt n (badOrderRetry config) = true <-> c < n) /\
    (forall w' s2 pa pool,
       getPairAddress w' (tokenIn order) (tokenOut order) = Some pa ->
       pools s2 !! pa = Some pool ->
       exists s3 pool',
         resume config w' (TRemovePoolOrder (orderId order) order) s2 = Ret tt s3 /\
         pools s3 !! pa = Some pool' /\
         orders pool' !! orderId order = None).
Proof.
  intros Hl Hp Hm Hf n.
  unfold executeIfAppropriate, attemptExecution, estimateGas, gasEstimateFails,
    unlocked in *.
  cbv [mbind M_bind mret M_ret gets modify emit spawn when lockOrder unlockOrder].
  rewrite Hl, Hp, Hm. cbn.
  set (m' := match badOrderMap s !! orderId order with
             | Some n0 => if n0 =? 0 then <[orderId order := 1]> (badOrderMap s)
                          else <[orderId order := n0 + 1]> (badOrderMap s)
             | None => <[orderId order := 1]> (badOrderMap s)
             end).
  assert (Hm' : m' = <[orderId order := n]> (badOrderMap s)).
  { subst m' n. destruct (badOrderMap s !! orderId order) as [n0 |]; cbn; [| done].
    by destruct (Z.eqb_spec n0 0) as [-> |]. }
  assert (Hn : default 0 (m' !! orderId order) = n).
  { by rewrite Hm', lookup_insert_eq. }
  assert (Hresume : forall w' s2 pa pool,
     getPairAddress w' (tokenIn order) (tokenOut order) = Some pa ->
     pools s2 !! pa = Some pool ->
     exists s3 pool',
       resume config w' (TRemovePoolOrder (orderId order) order) s2 = Ret tt s3 /\
       pools s3 !! pa = Some pool' /\ orders pool' !! orderId order = None).
  { intros w' s2 pa pool Hpa Hpool.
    destruct (removePoolOrder_removes config w' (orderId order) order s2 pa pool)
      as (s3 & Hs3 & Hpools & _); auto.
    exists s3, (removeOrder (orderId order) pool). split; [exact Hs3 |].
    rewrite Hpools, lookup_insert_eq. split; [done |]. apply lookup_delete_eq. }
  assert (Hgt : forall c, badOrderRetry config = Num c ->
                  js_gt n (badOrderRetry config) = true <-> c < n).
  { intros c ->. cbn. apply Z.ltb_lt. }
  destruct (ESTIMATED_GAS_OVERRIDE config) as [[| c o] |]; [| done |];
    rewrite Hf; cbn; fold m'; rewrite Hn; destruct (js_gt n _); cbn;
    rewrite lookup_insert_eq; cbn; (eexists; split; [reflexivity |]); cbn;
    rewrite lookup_delete_eq; auto 10.
Qed.

Lemma gas_estimate_failure_witness :
  exists s',
    executeIfAppropriate sampleConfig
      (sampleWorld EstimateRejects (ExecutionResolves true))
      (sampleOrder 1 100) initial = Ret false s' /\
    badOrderMap s' = <[1 := 1]> ∅ /\ pending s' = [].
Proof.
  destruct (gas_estimate_failure sampleConfig
              (sampleWorld EstimateRejects (ExecutionResolves true))
              (sampleOrder 1 100) initial)
    as (s' & H1 & H2 & _ & _ & H5 & _); try reflexivity.
  exists s'. split; [exact H1 |]. split; [exact H2 | exact H5].
Defined.

Lemma addPoolOrder_new_pool config w id order s pa :
  getPairAddress w (tokenIn order) (tokenOut order) = Some pa ->
  pools s !! pa = None ->
  exists s', addPoolOrder config w id order s = Ret tt s' /\
    pools s' = <[pa := addOrder id order (newTokenPool pa)]> (pools s) /\
    pending s' = TCreatePoolChangeListener pa :: pending s /\
    poolListeners s' = poolListeners s /\
    orderLocks s' = orderLocks s.
Proof.
  intros Hpa Hpool. unfold addPoolOrder, getOrCreatePool.
  cbv [mbind M_bind mret M_ret gets modify emit spawn]. rewrite Hpa. cbn.
  rewrite Hpool. eexists. split; [reflexivity |]. cbn. split; [| done].
  apply map_eq. intros k. destruct (decide (pa = k)) as [-> |].
  - by rewrite lookup_alter_eq, !lookup_insert_eq.
  - by rewrite lookup_alter_ne, !lookup_insert_ne.
Qed.

Lemma addPoolOrder_old_pool config w id order s pa pool :
  getPairAddress w (tokenIn order) (tokenOut order) = Some pa ->
  pools s !! pa = Some pool ->
  exists s', addPoolOrder config w id order s = Ret tt s' /\
    pools s' = <[pa := addOrder id order pool]> (pools s) /\
    pending s' = pending s /\
    poolListeners s' = poolListeners s /\
    orderLocks s' = orderLocks s.
Proof.
  intros Hpa Hpool. unfold addPoolOrder, getOrCreatePool.
  cbv [mbind M_bind mret M_ret gets modify emit spawn]. rewrite Hpa. cbn.
  rewrite Hpool. eexists. split; [reflexivity |]. cbn. split; [| done].
  apply map_eq. intros k. destruct (decide (pa = k)) as [-> |].
  - by rewrite lookup_alter_eq, lookup_insert_eq, Hpool.
  - by rewrite lookup_alter_ne, lookup_insert_ne.
Qed.

(** A price-sync tick on a market whose pool is empty, or gone, takes down
    the subscription and the pool. *)
Lemma syncData_idle config w pa emitter s :
  match pools s !! pa with
  | Some pool => getOrderCount pool = 0%nat
  | None => True
  end ->
  poolListeners s !! pa = Some emitter ->
  exists s', syncData config w pa s = Ret tt s' /\
    pools s' = delete pa (pools s) /\
    poolListeners s' = delete pa (poolListeners s) /\
    trace s' = EvRemoveAllListeners emitter :: trace s.
Proof.
  intros Hpool Hl. unfold syncData.
  cbv [mbind M_bind mret M_ret gets modify emit].
  destruct (pools s !! pa) as [pool |]; [rewrite Hpool; cbn |];
    rewrite Hl; eexists; (split; [reflexivity | done]).
Qed.

Lemma removeOrder_absent id pool :
  orders pool !! id = None -> removeOrder id pool = pool.
Proof.
  intros H. destruct pool as [pa os]. unfold removeOrder. cbn in *.
  f_equal. by apply delete_id.
Qed.

(** C3, as the registry has it: the pool of a market is created on the
    first insertion for its pair, and the price-sync subscription of the
    market is started with it; adding an order and then removing it leaves
    the market in the registry, with a pool that owns no order; the next
    price-sync tick of the market takes the empty pool out; removing an
    order that its pool does not own, or whose market has no pool, changes
    no pool. *)
Theorem pool_lifecycle config w order s pa :
  getPairAddress w (tokenIn order) (tokenOut order) = Some pa ->
  pools s !! pa = None ->
  exists s1 s2,
    addPoolOrder config w (orderId order) order s = Ret tt s1 /\
    pools s1 = <[pa := addOrder (orderId order) order (newTokenPool pa)]> (pools s) /\
    pending s1 = TCreatePoolChangeListener pa :: pending s /\
    removePoolOrder config w (orderId order) order s1 = Ret tt s2 /\
    pools s2 = <[pa := newTokenPool pa]> (pools s) /\
    getOrderCount (newTokenPool pa) = 0%nat /\
    (forall s3 emitter,
       pools s3 !! pa = Some (newTokenPool pa) ->
       poolListeners s3 !! pa = Some emitter ->
       exists s4, syncData config w pa s3 = Ret tt s4 /\
         pools s4 !! pa = None /\ poolListeners s4 !! pa = None) /\
    (forall s0 id,
       match pools s0 !! pa with
       | Some pool => orders pool !! id = None
       | None => True
       end ->
       exists s0', removePoolOrder config w id order s0 = Ret tt s0' /\
         pools s0' = pools s0).
Proof.
  intros Hpa Hpool.
  destruct (addPoolOrder_new_pool config w (orderId order) order s pa)
    as (s1 & Hadd & Hp1 & Hq1 & _); auto.
  destruct (removePoolOrder_removes config w (orderId order) order s1 pa
              (addOrder (orderId order) order (newTokenPool pa)))
    as (s2 & Hrem & Hp2 & _); [done | by rewrite Hp1, lookup_insert_eq |].
  exists s1, s2. split; [done |]. split; [done |]. split; [done |].
  split; [done |]. split.
  { rewrite Hp2, Hp1, insert_insert_eq. f_equal.
    unfold removeOrder, addOrder, newTokenPool. cbn. f_equal.
    by rewrite delete_insert_eq. }
  split; [done |]. split.
  - intros s3 emitter Hp3 Hl3.
    destruct (syncData_idle config w pa emitter s3) as (s4 & Hs4 & Hp4 & Hl4 & _);
      [by rewrite Hp3 | done |].
    exists s4. split; [done |]. rewrite Hp4, Hl4. by rewrite !lookup_delete_eq.
  - intros s0 id Hid. destruct (pools s0 !! pa) as [pool |] eqn:Hp0.
    + destruct (removePoolOrder_removes config w id order s0 pa pool)
        as (s0' & Hs0' & Hp0' & _); auto.
      exists s0'. split; [done |]. rewrite Hp0', removeOrder_absent by done.
      by apply insert_id.
    + eexists. split; [by apply removePoolOrder_no_pool with (pa := pa) | done].
Qed.

Lemma pool_lifecycle_witness :
  let w := sampleWorld (EstimateResolves (Some 12)) (ExecutionResolves true) in
  exists s1 s2,
    addPoolOrder sampleConfig w 1 (sampleOrder 1 100) initial = Ret tt s1 /\
    removePoolOrder sampleConfig w 1 (sampleOrder 1 100) s1 = Ret tt s2 /\
    pools s2 = <["0xpair" := newTokenPool "0xpair"]> ∅.
Proof.
  intros w.
  destruct (pool_lifecycle sampleConfig w (sampleOrder 1 100) initial "0xpair")
    as (s1 & s2 & H1 & _ & _ & H4 & H5 & _); try reflexivity.
  exists s1, s2. split; [exact H1 |]. split; [exact H4 | exact H5].
Defined.

(** C3, as it is worded, fails: after an order is added to a market with
    no pool and removed again, the market is still in the registry, with
    a pool that owns no order. *)
Lemma pool_outlives_its_last_order :
  let w := sampleWorld (EstimateResolves (Some 12)) (ExecutionResolves true) in
  let o := sampleOrder 1 100 in
  let s := final ((addPoolOrder sampleConfig w 1 o;;
                   removePoolOrder sampleConfig w 1 o) initial) in
  pools initial !! "0xpair" = None /\
  exists pool, pools s !! "0xpair" = Some pool /\ getOrderCount pool = 0%nat.
Proof.
  split; [reflexivity |]. exists (newTokenPool "0xpair").
  split; vm_compute; reflexivity.
Qed.

(** ** The order-cancelled and order-executed listeners *)

(** What the two listeners do with the order of their event, when its
    market has a pool: the order is removed from the pool; then the pool
    and the subscription of the market are taken down when the pool still
    owns an order, and left in place when it owns none. *)
Lemma untrackOrder_run config w order s pa pool :
  getPairAddress w (tokenIn order) (tokenOut order) = Some pa ->
  pools s !! pa = Some pool ->
  exists s', untrackOrder config w order s = Ret tt s' /\
    if (getOrderCount (removeOrder (orderId order) pool) =? 0)%nat
    then pools s' !! pa = Some (removeOrder (orderId order) pool) /\
         poolListeners s' = poolListeners s
    else pools s' !! pa = None /\ poolListeners s' !! pa = None.
Proof.
  intros Hpa Hpool. unfold untrackOrder.
  destruct (removePoolOrder_removes config w (orderId order) order s pa pool)
    as (s1 & E1 & Hp1 & Hl1 & _); auto.
  cbv [mbind M_bind mret M_ret gets modify emit when]. rewrite E1, Hpa.
  cbn [trace pools poolListeners set_trace set_pools set_poolListeners].
  rewrite Hp1, lookup_insert_eq.
  destruct (getOrderCount _ =? 0)%nat; cbn.
  - eexists. split; [reflexivity |]. cbn. by rewrite Hp1, lookup_insert_eq.
  - destruct (poolListeners s1 !! pa) eqn:El; eexists;
      (split; [reflexivity |]); cbn; rewrite ?lookup_delete_eq; done.
Qed.

(** C2 on the code: with orders 1 and 2 in the pool of a market, the
    cancellation of order 1 takes down the subscription and the pool of
    the market although order 2 is still there (and so does the execution
    of order 1); with order 1 alone in the pool, its cancellation leaves
    the empty pool and the subscription in place. *)
Lemma untrack_tears_down_when_orders_remain :
  let w := sampleWorld (EstimateResolves (Some 12)) (ExecutionResolves true) in
  let o1 := sampleOrder 1 100 in
  let o2 := sampleOrder 2 100 in
  (exists pool, pools (tracking [o1; o2]) !! "0xpair" = Some pool /\
     orders pool !! 2 = Some o2) /\
  is_Some (poolListeners (tracking [o1; o2]) !! "0xpair") /\
  (let s := final (step sampleConfig w (OrderCancelledData (Some o1))
                     (tracking [o1; o2])) in
   pools s !! "0xpair" = None /\ poolListeners s !! "0xpair" = None) /\
  (let s := final (step sampleConfig w (OrderExecutedData "0xdone" (Some o1))
                     (tracking [o1; o2])) in
   pools s !! "0xpair" = None /\ poolListeners s !! "0xpair" = None) /\
  (let s := final (step sampleConfig w (OrderCancelledData (Some o1))
                     (tracking [o1])) in
   pools s !! "0xpair" = Some (newTokenPool "0xpair") /\
   is_Some (poolListeners s !! "0xpair")).
Proof.
  cbv zeta. split; [| split; [| split; [| split]]].
  - eexists. split; vm_compute; reflexivity.
  - vm_compute. eauto.
  - split; vm_compute; reflexivity.
  - split; vm_compute; reflexivity.
  - split; vm_compute; [reflexivity | eauto].
Qed.

(** ** Shutdown *)

Lemma teardown_only_refl s : teardown_only s s.
Proof. by repeat split. Qed.

Lemma teardown_only_trans s1 s2 s3 :
  teardown_only s1 s2 -> teardown_only s2 s3 -> teardown_only s1 s3.
Proof.
  unfold teardown_only. intros H1 H2.
  destruct H1 as (?&?&?&?&?&?&?&?&?&?), H2 as (?&?&?&?&?&?&?&?&?&?).
  repeat split; congruence.
Qed.

Lemma keys_spec {V} (m : gmap string V) k : k ∈ keys m <-> is_Some (m !! k).
Proof.
  unfold keys. rewrite list_elem_of_fmap. split.
  - intros ([k' v] & -> & H). apply elem_of_map_to_list in H. eauto.
  - intros [v H]. exists (k, v). split; [done |]. by apply elem_of_map_to_list.
Qed.

Lemma keys_NoDup {V} (m : gmap string V) : NoDup (keys m).
Proof. apply NoDup_fst_map_to_list. Qed.

(** The two loops of [handleShutdown] have the same proof: by induction on
    the keys, each found in the map since no key comes twice. *)
Ltac listeners_loop Hnd :=
  let k := fresh "k" in
  let ks := fresh "ks" in
  let IH := fresh "IH" in
  let s := fresh "s" in
  let Hin := fresh "Hin" in
  induction Hnd as [| k ks ? ? IH]; intros s Hin;
  [ exists s; split; [done |]; split; [apply teardown_only_refl |];
    split; [done |];
    split; [intros ?; by rewrite decide_False by apply not_elem_of_nil |];
    split; [intros ? ? ?%not_elem_of_nil; done | done]
  | let h := fresh "h" in
    let Hh := fresh "Hh" in
    destruct (Hin k) as [h Hh]; [by left |];
    simpl; cbv [mbind M_bind mret M_ret gets modify emit]; rewrite Hh;
    match goal with
    | |- exists s', ?loop ks ?s1 = _ /\ _ =>
        let s' := fresh "s'" in
        let Hrun := fresh "Hrun" in
        let Htd := fresh "Htd" in
        let Hol := fresh "Hol" in
        let Hpl := fresh "Hpl" in
        let Hev := fresh "Hev" in
        let Htr := fresh "Htr" in
        destruct (IH s1) as (s' & Hrun & Htd & Hol & Hpl & Hev & Htr);
        [ intros k' Hk'; cbn; rewrite lookup_delete_ne;
          [apply Hin; by right | intros ->; done]
        | exists s'; split; [exact Hrun |];
          split; [eapply teardown_only_trans; [| exact Htd]; by repeat split |];
          split; [by rewrite Hol |];
          split; [| split];
          [ intros k'; rewrite Hpl; cbn;
            let Hi := fresh "Hi" in
            let Hj := fresh "Hj" in
            destruct (decide (k' ∈ ks)) as [Hi | Hi],
                     (decide (k' ∈ k :: ks)) as [Hj | Hj]; try done;
            [ exfalso; apply Hj; by right
            | apply elem_of_cons in Hj as [-> |]; [apply lookup_delete_eq | done]
            | rewrite lookup_delete_ne; [done |]; intros ->; apply Hj; by left ]
          | intros k' h' [-> | Hk']%elem_of_cons Hh';
            [ apply Htr; cbn; rewrite Hh in Hh'; injection Hh' as <-; by left
            | eapply Hev; [exact Hk' |]; cbn; rewrite lookup_delete_ne;
              [done | intros ->; done] ]
          | intros e He; apply Htr; cbn; by right ] ]
    end ].

Lemma removePoolListeners_run ks s :
  NoDup ks -> (forall k, k ∈ ks -> is_Some (poolListeners s !! k)) ->
  exists s', removePoolListeners ks s = Ret tt s' /\ teardown_only s s' /\
    orderListeners s' = orderListeners s /\
    (forall k, poolListeners s' !! k =
               if decide (k ∈ ks) then None else poolListeners s !! k) /\
    (forall k h, k ∈ ks -> poolListeners s !! k = Some h ->
                 EvRemoveAllListeners h ∈ trace s') /\
    (forall e, e ∈ trace s -> e ∈ trace s').
Proof. intros Hnd. revert s. listeners_loop Hnd. Qed.

Lemma removeOrderListeners_run ks s :
  NoDup ks -> (forall k, k ∈ ks -> is_Some (orderListeners s !! k)) ->
  exists s', removeOrderListeners ks s = Ret tt s' /\ teardown_only s s' /\
    poolListeners s' = poolListeners s /\
    (forall k, orderListeners s' !! k =
               if decide (k ∈ ks) then None else orderListeners s !! k) /\
    (forall k h, k ∈ ks -> orderListeners s !! k = Some h ->
                 EvRemoveAllListeners h ∈ trace s') /\
    (forall e, e ∈ trace s -> e ∈ trace s').
Proof. intros Hnd. revert s. listeners_loop Hnd. Qed.

(** [handleShutdown] up to its [await]: both maps of emitters are emptied,
    every emitter they held has had its listeners removed, and then the
    post is sent and awaited, or the process exits. *)
Lemma handleShutdown_run config exitCode s :
  exists s',
    teardown_only s s' /\
    poolListeners s' = ∅ /\ orderListeners s' = ∅ /\
    (forall k h, poolListeners s !! k = Some h \/ orderListeners s !! k = Some h ->
                 EvRemoveAllListeners h ∈ trace s') /\
    handleShutdown config exitCode s =
      if notifies config exitCode then
        Ret tt (set_pending (cons (TShutdownExit exitCode))
                  (set_trace (cons (EvFetch (failureShutdownWebhookUrl config) exitCode)) s'))
      else Exit exitCode s'.
Proof.
  destruct (removePoolListeners_run (keys (poolListeners s)) s)
    as (s1 & Hrun1 & Htd1 & Hol1 & Hpl1 & Hev1 & Htr1);
    [apply keys_NoDup | by intros k ?%keys_spec |].
  destruct (removeOrderListeners_run (keys (orderListeners s1)) s1)
    as (s2 & Hrun2 & Htd2 & Hpl2 & Hol2 & Hev2 & Htr2);
    [apply keys_NoDup | by intros k ?%keys_spec |].
  exists s2. split; [by eapply teardown_only_trans |].
  split; [| split; [| split]].
  - apply map_eq. intros k. rewrite Hpl2, Hpl1, lookup_empty.
    destruct (decide _) as [| Hk]; [done |].
    destruct (poolListeners s !! k) eqn:E; [| done].
    exfalso. apply Hk, keys_spec. eauto.
  - apply map_eq. intros k. rewrite Hol2, lookup_empty.
    destruct (decide _) as [| Hk]; [done |].
    destruct (orderListeners s1 !! k) eqn:E; [| done].
    exfalso. apply Hk, keys_spec. eauto.
  - intros k h [Hk | Hk].
    + apply Htr2. eapply Hev1; [| exact Hk]. apply keys_spec. eauto.
    + rewrite <- Hol1 in Hk. eapply Hev2; [| exact Hk]. apply keys_spec. eauto.
  - unfold handleShutdown, notifies. cbv [mbind M_bind gets].
    rewrite Hrun1, Hrun2. by destruct (_ && _).
Qed.

Lemma handleError_run config exitCode s :
  exitCode <> 0 -> handleError config exitCode s = handleShutdown config exitCode s.
Proof.
  intros H. unfold handleError. by destruct (Z.eqb_spec exitCode 0).
Qed.



(** ** The failure circuit breaker *)

Lemma shutdown_only_trans q1 n1 q2 n2 s1 s2 s3 :
  shutdown_only q1 n1 s1 s2 -> shutdown_only q2 n2 s2 s3 ->
  shutdown_only (q2 ++ q1) (n2 ++ n1) s1 s3.
Proof.
  unfold shutdown_only. intros H1 H2.
  destruct H1 as (?&?&?&?&?&?&?&?&Hq1&Hn1), H2 as (?&?&?&?&?&?&?&?&Hq2&Hn2).
  rewrite Hq2, Hq1, Hn2, Hn1, <- !app_assoc. repeat split; congruence.
Qed.

Lemma setFailedTxnTimer_run config s :
  setFailedTxnTimer config s =
    Ret tt (if armsTimer config s
            then set_failedTxnTimer (Some (fresh s))
                   (set_timers (cons (fresh s, parseInt (maxFailureDuration config) None))
                      (set_fresh (S (fresh s)) s))
            else s).
Proof.
  unfold setFailedTxnTimer, armsTimer, setTimeout.
  cbv [mbind M_bind mret M_ret gets modify when].
  destruct (truthy_string _); [| done]. cbn.
  by destruct (_ || _).
Qed.


Lemma when_handleError_run config (b : bool) exitCode s :
  ExitCodes.GenericError < exitCode ->
  let url := truthy_string (failureShutdownWebhookUrl config) in
  exists s',
    shutdown_only (shutdownTasks (b && url) exitCode)
      (shutdownPosts config (b && url) exitCode) s s' /\
    when b (handleError config exitCode) s =
      if b && negb url then Exit exitCode s' else Ret tt s'.
Proof.
  intros Hc url. destruct b; cbn.
  2:{ exists s. split; [by repeat split | done]. }
  rewrite handleError_run by (unfold ExitCodes.GenericError in *; lia).
  destruct (handleShutdown_run config exitCode s) as (s' & Htd & _ & _ & _ & Hrun).
  rewrite Hrun. unfold notifies.
  destruct (Z.ltb_spec ExitCodes.GenericError exitCode); [| lia]. cbn. fold url.
  destruct url; cbn.
  - eexists. split; [| reflexivity].
    destruct Htd as (?&?&?&?&?&?&?&?&Hq&Hn). repeat split; cbn; try done; by f_equal.
  - exists s'. split; [exact Htd | done].
Qed.

(** The thresholds are reached when the setting reads as a number that the
    counter has reached. *)
Lemma tooManyFailures_spec config c :
  tooManyFailures config c = true <->
  maxFailureCount config <> "" /\
  exists n, parseInt (maxFailureCount config) None = Num n /\ n <= c.
Proof.
  unfold tooManyFailures. rewrite andb_true_iff, js_ge_spec.
  destruct (maxFailureCount config); cbn; intuition congruence.
Qed.

Lemma tooMuchGasLost_spec config g :
  tooMuchGasLost config g = true <->
  maxFailureGasCost config <> "" /\
  exists n, parseInt (maxFailureGasCost config) None = Num n /\ n <= g.
Proof.
  unfold tooMuchGasLost. rewrite andb_true_iff, js_ge_spec.
  destruct (maxFailureGasCost config); cbn; intuition congruence.
Qed.

(** [handleFailedExecution] on a receipt: after the counters have gone up
    and the thresholds have been checked the state is [s2]; without a
    webhook the first threshold reached ends the process, and otherwise
    the timer block runs. *)
Lemma handleFailedExecution_run config r s :
  truthy_receipt r = true ->
  let c := failedTxnCount s + 1 in
  let g := failedTxnGasCost s + gasUsed_or_0 r in
  let url := truthy_string (failureShutdownWebhookUrl config) in
  exists s2,
    shutdown_only
      (shutdownTasks (tooMuchGasLost config g && url) ExitCodes.TooMuchGasLost
       ++ shutdownTasks (tooManyFailures config c && url) ExitCodes.TooManyFailures)
      (shutdownPosts config (tooMuchGasLost config g && url) ExitCodes.TooMuchGasLost
       ++ shutdownPosts config (tooManyFailures config c && url) ExitCodes.TooManyFailures)
      (set_failedTxnGasCost g (set_failedTxnCount c s)) s2 /\
    handleFailedExecution config r s =
      if tooManyFailures config c && negb url
      then Exit ExitCodes.TooManyFailures s2
      else if tooMuchGasLost config g && negb url
           then Exit ExitCodes.TooMuchGasLost s2
           else setFailedTxnTimer config s2.
Proof.
  intros Hr c g url.
  unfold handleFailedExecution. rewrite Hr. cbn [negb].
  cbv [mbind M_bind gets modify].
  change (failedTxnCount s + 1) with c.
  change (failedTxnGasCost (set_failedTxnCount c s) + gasUsed_or_0 r) with g.
  change (failedTxnCount (set_failedTxnGasCost g (set_failedTxnCount c s))) with c.
  set (s0 := set_failedTxnGasCost g (set_failedTxnCount c s)).
  change (truthy_string (maxFailureCount config)
          && js_ge c (parseInt (maxFailureCount config) None))
    with (tooManyFailures config c).
  destruct (when_handleError_run config (tooManyFailures config c)
              ExitCodes.TooManyFailures s0) as (s1 & H1 & E1); [done |].
  rewrite E1. fold url in H1, E1 |- *.
  destruct (tooManyFailures config c && negb url) eqn:B1.
  { exists s1. split; [| done].
    apply andb_true_iff in B1 as [_ Hu]. destruct url; [done |].
    by rewrite !andb_false_r in *. }
  assert (Hg1 : failedTxnGasCost s1 = g) by apply H1.
  rewrite Hg1.
  change (truthy_string (maxFailureGasCost config)
          && js_ge g (parseInt (maxFailureGasCost config) None))
    with (tooMuchGasLost config g).
  destruct (when_handleError_run config (tooMuchGasLost config g)
              ExitCodes.TooMuchGasLost s1) as (s2 & H2 & E2); [done |].
  rewrite E2. fold url in H2, E2 |- *.
  exists s2. split; [by eapply shutdown_only_trans |].
  by destruct (tooMuchGasLost config g && negb url).
Qed.




(** With [maxFailureCount] set to 3 and no webhook, two failed executions
    leave the service running and the third ends it with
    [TooManyFailures]. *)
Lemma three_failures_trip :
  let w := sampleWorld (EstimateResolves (Some 8))
             (ExecutionRejects (sampleReceipt 21000)) in
  let s2 := after sampleConfig
              [(w, Start []);
               (w, OrderPlacedData (Some (sampleOrder 1 100)));
               (w, OrderPlacedData (Some (sampleOrder 2 100)))] initial in
  failedTxnCount s2 = 2 /\
  alive (step sampleConfig w (OrderPlacedData (Some (sampleOrder 2 100)))
           (after sampleConfig
              [(w, Start []); (w, OrderPlacedData (Some (sampleOrder 1 100)))]
              initial)) /\
  exists s3, step sampleConfig w (OrderPlacedData (Some (sampleOrder 3 100))) s2
             = Exit ExitCodes.TooManyFailures s3 /\
             failedTxnCount s3 = 3.
Proof.
  cbv zeta. split; [vm_compute; reflexivity |]. split; [vm_compute; exact Logic.I |].
  eexists. split; vm_compute; reflexivity.
Qed.

(** ** The reset timer *)

(** With reset-on-failure enabled, a recorded failure that does not end
    the process sets a new timeout and leaves the timeouts already set
    where they are. *)
Lemma reset_adds_a_timeout config r s s' :
  truthy_receipt r = true ->
  truthy_string (maxFailureDuration config) = true ->
  toLowerCase (resetTimerOnFailure config) = "true" ->
  handleFailedExecution config r s = Ret tt s' ->
  timers s' = (fresh s, parseInt (maxFailureDuration config) None) :: timers s /\
  failedTxnTimer s' = Some (fresh s).
Proof.
  intros Hr Hd Hreset Hout.
  destruct (handleFailedExecution_run config r s Hr) as (s2 & H2 & E).
  rewrite E in Hout. clear E.
  destruct (_ && _); [done |]. destruct (_ && _); [done |].
  rewrite setFailedTxnTimer_run in Hout. unfold armsTimer in Hout.
  rewrite Hd, Hreset, orb_true_r in Hout. cbn in Hout.
  injection Hout as <-. cbn.
  destruct H2 as (_ & _ & _ & _ & _ & _ & Ht & Hf & _). cbn in Ht, Hf.
  by rewrite Ht, Hf.
Qed.

(** C5 on the code: with reset-on-failure enabled, the second failure sets
    a second timeout while the first is still to fire; when the first
    fires, the counters go back to zero and the reference to the timer is
    cleared although the second timeout is still running. *)
Lemma reset_leaves_old_timer_running :
  let config := withReset sampleConfig in
  let w := sampleWorld (EstimateResolves (Some 8)) (ExecutionResolves true) in
  let r := sampleReceipt 21000 in
  let s1 := final (handleFailedExecution config r initial) in
  let s2 := final (handleFailedExecution config r s1) in
  let s3 := final (step config w (TimerFires 0) s2) in
  (timers s1 = [(0%nat, Num 60000)] /\ failedTxnTimer s1 = Some 0%nat) /\
  (timers s2 = [(1%nat, Num 60000); (0%nat, Num 60000)] /\
   failedTxnTimer s2 = Some 1%nat /\ failedTxnCount s2 = 2) /\
  (timers s3 = [(1%nat, Num 60000)] /\
   failedTxnTimer s3 = None /\ failedTxnCount s3 = 0).
Proof. cbv zeta. repeat split; vm_compute; reflexivity. Qed.

Lemma timer_fires config w t s :
  t ∈ (timers s).*1 ->
  step config w (TimerFires t) s =
    Ret tt (set_failedTxnTimer None
              (set_failedTxnGasCost 0
                 (set_failedTxnCount 0
                    (set_timers (filter (fun x => x.1 ≠ t)) s)))).
Proof.
  intros Ht. cbn. cbv [mbind M_bind gets when].
  by rewrite bool_decide_true.
Qed.

(** C9: with reset-on-failure disabled and a timer active, recording a
    failure leaves the timer and the timeouts as they are; when a timeout
    fires, the count and the gas cost of the failures are zero and the
    reference to the timer is cleared; and every other step, in a world
    whose receipts report a gas consumption that is not negative, leaves
    each of the two counters at least where it was. *)
Theorem failure_window config w s :
  (forall r t,
     String.eqb (toLowerCase (resetTimerOnFailure config)) "true" = false ->
     failedTxnTimer s = Some t ->
     failedTxnTimer (final (handleFailedExecution config r s)) = Some t /\
     timers (final (handleFailedExecution config r s)) = timers s) /\
  (forall t, t ∈ (timers s).*1 ->
     exists s', step config w (TimerFires t) s = Ret tt s' /\
       failedTxnCount s' = 0 /\ failedTxnGasCost s' = 0 /\
       failedTxnTimer s' = None /\ t ∉ (timers s').*1) /\
  (forall i, receipts_sound w -> (forall t, i <> TimerFires t) ->
     failedTxnCount s <= failedTxnCount (final (step config w i s)) /\
     failedTxnGasCost s <= failedTxnGasCost (final (step config w i s))).
Proof.
  split; [| split].
  - intros r t Hreset Ht. destruct (truthy_receipt r) eqn:Hr.
    2:{ unfold handleFailedExecution. by rewrite Hr. }
    destruct (handleFailedExecution_run config r s Hr) as (s2 & H2 & E).
    rewrite E. clear E.
    destruct H2 as (_ & _ & _ & Hft & _ & _ & Hts & _). cbn in Hft, Hts.
    destruct (_ && _); [by rewrite <- Ht |].
    destruct (_ && _); [by rewrite <- Ht |].
    rewrite setFailedTxnTimer_run. unfold armsTimer.
    rewrite Hft, Ht, Hreset. cbn. rewrite andb_false_r. cbn.
    by rewrite Hft, Ht.
  - intros t Ht. eexists. split; [by apply timer_fires |]. cbn.
    split; [done |]. split; [done |]. split; [done |].
    intros ([t' d] & -> & Hin)%list_elem_of_fmap.
    by apply list_elem_of_filter in Hin as [Hne _].
  - intros i Hw Hi.
    refine (step_preserves config
              (fun s' => failedTxnCount s <= failedTxnCount s' /\
                         failedTxnGasCost s <= failedTxnGasCost s')
              _ (fun g => 0 <= g) _ _ (fun _ => True) _ _ _ _ w Hw _ i Hi s _);
      cbn; solve [done | lia | intros s1 s1' _ Hc Hg _; by rewrite Hc, Hg].
Qed.

Lemma failure_window_witness :
  let config := sampleConfig in
  let w := sampleWorld (EstimateResolves (Some 8))
             (ExecutionRejects (sampleReceipt 21000)) in
  let o := sampleOrder 1 100 in
  let r := sampleReceipt 21000 in
  let s := final (handleFailedExecution config r initial) in
  (failedTxnTimer (final (handleFailedExecution config r s)) = Some 0%nat /\
   timers (final (handleFailedExecution config r s)) = timers s) /\
  (exists s', step config w (TimerFires 0) s = Ret tt s' /\
     failedTxnCount s' = 0 /\ failedTxnGasCost s' = 0 /\
     failedTxnTimer s' = None /\ 0%nat ∉ (timers s').*1) /\
  failedTxnCount s <= failedTxnCount (final (step config w (OrderPlacedData (Some o)) s)).
Proof.
  intros config w o r s.
  destruct (failure_window config w s) as (Ha & Hb & Hc).
  split; [| split].
  - apply Ha; reflexivity.
  - apply Hb. vm_compute. left.
  - apply Hc.
    + intros order g p r' [= <-]. cbn. lia.
    + discriminate.
Defined.

(** ** The execution lock *)

(** A lock that is held stays held through every step of the service. *)
Lemma step_keeps_lock config w i id s :
  orderLocks s !! id = Some true ->
  orderLocks (final (step config w i s)) !! id = Some true.
Proof.
  intros Hs.
  refine (step_preserves_all config
            (fun s' => orderLocks s' !! id = Some true)
            _ (fun _ => True) _ _ (fun id' => id' <> id) _ _ _ _ w _ _ _ i s Hs);
    cbn; try done.
  - by intros s1 s1' ->.
  - intros id' s1 H1. destruct (decide (id' = id)) as [-> |].
    + apply lookup_insert_eq.
    + by rewrite lookup_insert_ne.
  - intros id' s1 Hne H1. by rewrite lookup_delete_ne.
  - intros id' s1 H1 Hu ->. unfold unlocked in Hu. by rewrite H1 in Hu.
Qed.

Lemma run_keeps_lock config id s s' :
  orderLocks s !! id = Some true -> run config s s' ->
  orderLocks s' !! id = Some true.
Proof.
  intros Hs Hrun. induction Hrun as [| s s' w i Hrun IH Halive]; [done |].
  apply step_keeps_lock. by apply IH.
Qed.

(** C10: when the execution collaborator resolves, [executeIfAppropriate]
    returns what it resolved with and leaves the order locked; no step of
    the service afterwards takes the lock away, so that every later
    evaluation of an order with that id returns false and changes nothing.
    When the collaborator resolved with a falsy value in the order-placed
    listener, the listener starts [addPoolOrder], which puts the order in
    the pool of its market while it is still locked. *)
Theorem lock_outlives_execution config w order s g p b :
  unlocked s (orderId order) ->
  orderState order = OrderState.Placed ->
  isInTheMoney w order = Some true ->
  gasEstimated config w order g -> g <> 0 ->
  getPreferredGasPrice w = Some p -> p <> 0 ->
  g * p < executorFee order ->
  executeOrder w order g p = ExecutionResolves b ->
  exists s1,
    executeIfAppropriate config w order s = Ret b s1 /\
    orderLocks s1 !! orderId order = Some true /\
    (forall s2, run config s1 s2 ->
       orderLocks s2 !! orderId order = Some true /\
       forall w' order', orderId order' = orderId order ->
         executeIfAppropriate config w' order' s2 = Ret false s2) /\
    (b = false ->
       exists s1',
         orderPlacedData config w (Some order) s = Ret tt s1' /\
         pending s1' = TAddPoolOrder (orderId order) order :: pending s /\
         forall s2 w' pa,
           run config s1' s2 ->
           getPairAddress w' (tokenIn order) (tokenOut order) = Some pa ->
           exists s3 pool,
             resume config w' (TAddPoolOrder (orderId order) order) s2 = Ret tt s3 /\
             pools s3 !! pa = Some pool /\
             orders pool !! orderId order = Some order /\
             orderLocks s3 !! orderId order = Some true).
Proof.
  intros Hl Hp Hm Hg Hg0 Hpr Hp0 Hlt Hex.
  destruct (executeIfAppropriate_at_gate config w order s g p)
    as (s1 & Hlocks & _ & Hq & Heq); auto.
  apply Z.ltb_lt in Hlt. rewrite Hlt, Hex in Heq.
  set (s1e := set_trace (cons (EvExecuteOrder order g p)) s1) in *.
  assert (Hlocked : orderLocks s1e !! orderId order = Some true).
  { cbn. by rewrite Hlocks, lookup_insert_eq. }
  exists s1e. split; [done |]. split; [done |]. split.
  - intros s2 Hrun.
    pose proof (run_keeps_lock config _ _ _ Hlocked Hrun) as H2.
    split; [done |]. intros w' order' Hid.
    apply executeIfAppropriate_early. left. by rewrite Hid.
  - intros ->. unfold orderPlacedData, mbind, M_bind. rewrite Heq. cbn.
    eexists. split; [reflexivity |]. cbn. split; [by rewrite Hq |].
    intros s2 w' pa Hrun Hpa.
    assert (H2 : orderLocks s2 !! orderId order = Some true).
    { eapply run_keeps_lock; [| exact Hrun]. done. }
    cbn [resume]. destruct (pools s2 !! pa) as [pool |] eqn:Hpool.
    + destruct (addPoolOrder_old_pool config w' (orderId order) order s2 pa pool)
        as (s3 & E3 & Hp3 & _ & _ & Hl3); auto.
      exists s3, (addOrder (orderId order) order pool).
      rewrite Hp3, Hl3, lookup_insert_eq. cbn. by rewrite lookup_insert_eq.
    + destruct (addPoolOrder_new_pool config w' (orderId order) order s2 pa)
        as (s3 & E3 & Hp3 & _ & _ & Hl3); auto.
      exists s3, (addOrder (orderId order) order (newTokenPool pa)).
      rewrite Hp3, Hl3, lookup_insert_eq. cbn. by rewrite lookup_insert_eq.
Qed.

Lemma lock_outlives_execution_witness :
  let w := sampleWorld (EstimateResolves (Some 8)) (ExecutionResolves false) in
  exists s1,
    executeIfAppropriate sampleConfig w (sampleOrder 1 100) initial = Ret false s1 /\
    orderLocks s1 !! 1 = Some true.
Proof.
  intros w.
  destruct (lock_outlives_execution sampleConfig w (sampleOrder 1 100) initial
              8 10 false)
    as (s1 & H1 & H2 & _); try reflexivity; try discriminate.
  exists s1. split; [exact H1 | exact H2].
Defined.

(** ** Footprints of the methods

    What the methods can change, kind of change by kind of change: an
    invariant [I] that stands each change where a method makes it is
    kept by the method, whatever its outcome.  The hypotheses say where:
    an execution attempt is only emitted for a placed order with a cost
    below the fee, a webhook post only for a failure code that is
    notified, a question to the gas provider only without the override,
    a pool deleted by the price-sync listener only when it owns no
    order. *)

Section Footprint.

Variable config : Config.
Variable I : State -> Prop.

Hypothesis F_plain : forall e s, plain e = true -> I s -> I (set_trace (cons e) s).
Hypothesis F_pending : forall f s, I s -> I (set_pending f s).
Hypothesis F_poolListeners : forall f s, I s -> I (set_poolListeners f s).
Hypothesis F_orderListeners : forall f s, I s -> I (set_orderListeners f s).
Hypothesis F_fresh : forall n s, I s -> I (set_fresh n s).

Ltac leaf :=
  apply preserves_modify;
  let s := fresh "s" in
  let Hs := fresh "Hs" in
  intros s Hs;
  first [ apply F_plain; [reflexivity | exact Hs]
        | apply F_pending; exact Hs
        | apply F_poolListeners; exact Hs
        | apply F_orderListeners; exact Hs
        | apply F_fresh; exact Hs ].

Ltac keep := repeat first [ pres_step | progress unfold emit, spawn | leaf ].

Lemma removePoolListeners_keeps ks : preserves I (removePoolListeners ks).
Proof. induction ks as [| k ks IH]; simpl; keep. exact IH. Qed.

Lemma removeOrderListeners_keeps ks : preserves I (removeOrderListeners ks).
Proof. induction ks as [| k ks IH]; simpl; keep. exact IH. Qed.

Lemma handleShutdown_keeps exitCode :
  (forall s, notifies config exitCode = true -> I s ->
     I (set_trace (cons (EvFetch (failureShutdownWebhookUrl config) exitCode)) s)) ->
  preserves I (handleShutdown config exitCode).
Proof.
  intros Hfetch. unfold handleShutdown.
  apply preserves_bind; [keep | intros ks1].
  apply preserves_bind; [apply removePoolListeners_keeps | intros _].
  apply preserves_bind; [keep | intros ks2].
  apply preserves_bind; [apply removeOrderListeners_keeps | intros _].
  fold (notifies config exitCode).
  destruct (notifies config exitCode) eqn:E; [| apply preserves_exit].
  apply preserves_bind; [| intros _; keep].
  apply preserves_modify. intros s Hs. by apply Hfetch.
Qed.

Lemma handleError_keeps exitCode :
  (forall s, notifies config exitCode = true -> I s ->
     I (set_trace (cons (EvFetch (failureShutdownWebhookUrl config) exitCode)) s)) ->
  preserves I (handleError config exitCode).
Proof.
  intros Hfetch. unfold handleError. apply preserves_when.
  by apply handleShutdown_keeps.
Qed.

(** The generic failure code is never notified. *)
Lemma handleError_generic_keeps :
  preserves I (handleError config ExitCodes.GenericError).
Proof.
  apply handleError_keeps. intros s E.
  unfold notifies, ExitCodes.GenericError in E. simpl in E. discriminate.
Qed.

Lemma handleShutdown_resume_keeps w exitCode :
  preserves I (handleShutdown_resume w exitCode).
Proof. unfold handleShutdown_resume. keep. Qed.

Lemma newEmitter_keeps name : preserves I (newEmitter name).
Proof. unfold newEmitter. keep. Qed.

(** The pool registry: the invariant stands what is done to the pools of
    the markets that are [touchable]. *)

Variable touchable : string -> Prop.

Hypothesis F_pool_new : forall k s,
  touchable k -> pools s !! k = None -> I s ->
  I (set_pools <[k := newTokenPool k]> s).
Hypothesis F_pool_add : forall id o k s,
  touchable k -> I s -> I (set_pools (alter (addOrder id o) k) s).
Hypothesis F_pool_remove : forall id k s,
  touchable k -> I s -> I (set_pools (alter (removeOrder id) k) s).

Lemma createPoolChangeListener_keeps w p :
  preserves I (createPoolChangeListener config w p).
Proof.
  unfold createPoolChangeListener.
  keep; auto using newEmitter_keeps, handleError_generic_keeps.
Qed.

Lemma createOrderListener_keeps w name :
  preserves I (createOrderListener config w name).
Proof.
  unfold createOrderListener.
  keep; auto using newEmitter_keeps, handleError_generic_keeps.
Qed.

Lemma getOrCreatePool_keeps k : touchable k -> preserves I (getOrCreatePool k).
Proof.
  intros Hk. unfold getOrCreatePool. apply preserves_gets_bind. intros s Hs.
  destruct (pools s !! k) eqn:E; [exact Hs |].
  change (I (set_pending (cons (TCreatePoolChangeListener k))
               (set_pools <[k := newTokenPool k]> s))).
  by apply F_pending, F_pool_new.
Qed.

Lemma addPoolOrder_keeps w id o :
  (forall k, getPairAddress w (tokenIn o) (tokenOut o) = Some k -> touchable k) ->
  preserves I (addPoolOrder config w id o).
Proof.
  intros Hk. unfold addPoolOrder. apply preserves_bind; [keep | intros _].
  destruct (getPairAddress w _ _) as [k |]; [| apply handleError_generic_keeps].
  apply preserves_bind; [apply getOrCreatePool_keeps; auto | intros _].
  apply preserves_modify. intros s Hs. apply F_pool_add; auto.
Qed.

Lemma removePoolOrder_keeps w id o :
  (forall k, getPairAddress w (tokenIn o) (tokenOut o) = Some k -> touchable k) ->
  preserves I (removePoolOrder config w id o).
Proof.
  intros Hk. unfold removePoolOrder. apply preserves_bind; [keep | intros _].
  destruct (getPairAddress w _ _) as [k |]; [| apply handleError_generic_keeps].
  apply preserves_bind; [keep | intros [p |]]; [| apply preserves_ret].
  apply preserves_modify. intros s Hs. apply F_pool_remove; auto.
Qed.

(** The failure recorder: the invariant stands one more failure with any
    gas, the timer block, and the two notifications of the recorder. *)

Hypothesis F_count : forall s,
  I s -> I (set_failedTxnCount (failedTxnCount s + 1) s).
Hypothesis F_cost : forall g s,
  I s -> I (set_failedTxnGasCost (failedTxnGasCost s + g) s).
Hypothesis F_timer : preserves I (setFailedTxnTimer config).
Hypothesis F_fetch : forall exitCode s,
  exitCode = ExitCodes.TooManyFailures \/ exitCode = ExitCodes.TooMuchGasLost ->
  notifies config exitCode = true -> I s ->
  I (set_trace (cons (EvFetch (failureShutdownWebhookUrl config) exitCode)) s).

Lemma handleFailedExecution_keeps r :
  preserves I (handleFailedExecution config r).
Proof.
  unfold handleFailedExecution.
  destruct (negb (truthy_receipt r)); [apply preserves_ret |].
  apply preserves_bind; [apply preserves_modify; auto | intros _].
  apply preserves_bind; [apply preserves_modify; auto | intros _].
  apply preserves_bind; [keep | intros c].
  apply preserves_bind;
    [apply preserves_when, handleError_keeps; intros; apply F_fetch; auto | intros _].
  apply preserves_bind; [keep | intros g].
  apply preserves_bind;
    [apply preserves_when, handleError_keeps; intros; apply F_fetch; auto | intros _].
  exact F_timer.
Qed.

(** The execution decision, for the orders that are [evaluable]. *)

Variable evaluable : IUniTradeOrder -> Prop.

Hypothesis F_lock : forall o s,
  evaluable o -> I s -> I (set_orderLocks <[orderId o := true]> s).
Hypothesis F_unlock : forall o s,
  evaluable o -> I s -> I (set_orderLocks (delete (orderId o)) s).
Hypothesis F_estimate : forall o s,
  evaluable o -> overridden config = false -> I s ->
  I (set_trace (cons (EvGetEstimatedGasForOrder (orderId o))) s).
Hypothesis F_bump : forall o f s,
  evaluable o -> overridden config = false ->
  (forall m id, id <> orderId o -> f m !! id = m !! id) ->
  I s -> I (set_badOrderMap f s).
Hypothesis F_execute : forall o g p s,
  evaluable o -> orderState o = OrderState.Placed ->
  g <> 0 -> p <> 0 -> g * p < executorFee o ->
  I s -> I (set_trace (cons (EvExecuteOrder o g p)) s).

Lemma unlockOrder_keeps o : evaluable o -> preserves I (unlockOrder (orderId o)).
Proof.
  intros Ho. unfold unlockOrder. apply preserves_bind; [keep | intros b].
  apply preserves_when. apply preserves_bind; [| intros _; keep].
  apply preserves_modify. auto.
Qed.

Lemma estimateGas_keeps w o : evaluable o -> preserves I (estimateGas config w o).
Proof.
  intros Ho. unfold estimateGas.
  assert (Hprov : overridden config = false ->
    preserves I
      (emit (EvGetEstimatedGasForOrder (orderId o));;
       match getEstimatedGasForOrder w (orderId o) with
       | EstimateRejects =>
           modify (set_badOrderMap (fun m =>
             match m !! orderId o with
             | Some n => if n =? 0 then <[orderId o := 1]> m
                         else <[orderId o := n + 1]> m
             | None => <[orderId o := 1]> m
             end));;
           n ← gets (fun s => default 0 (badOrderMap s !! orderId o));
           when (js_gt n (badOrderRetry config))
             (spawn (TRemovePoolOrder (orderId o) o));;
           mret None
       | EstimateResolves g => mret g
       end)).
  { intros Hov. apply preserves_bind; [| intros _].
    { apply preserves_modify. auto. }
    destruct (getEstimatedGasForOrder w (orderId o)); [| apply preserves_ret].
    apply preserves_bind; [| intros _; keep].
    apply preserves_modify. intros s Hs. apply (F_bump o); auto.
    intros m id Hid. destruct (m !! orderId o) as [n |];
      [destruct (n =? 0) |]; by rewrite lookup_insert_ne. }
  unfold overridden in Hprov.
  destruct (ESTIMATED_GAS_OVERRIDE config) as [[| c ov] |]; auto.
  apply preserves_ret.
Qed.

Lemma attemptExecution_keeps w o :
  evaluable o -> orderState o = OrderState.Placed ->
  preserves I (attemptExecution config w o).
Proof.
  intros Ho Hplaced. unfold attemptExecution, lockOrder.
  apply preserves_bind; [| intros _].
  { apply preserves_bind; [apply preserves_modify; auto | intros _]. keep. }
  apply preserves_bind; [keep | intros _].
  destruct (isInTheMoney w o) as [[|] |]; [| | apply preserves_throw].
  2:{ keep. by apply unlockOrder_keeps. }
  apply preserves_bind; [by apply estimateGas_keeps | intros [g |]].
  2:{ keep. by apply unlockOrder_keeps. }
  destruct (Z.eqb_spec g 0) as [| Hg]; [keep; by apply unlockOrder_keeps |].
  apply preserves_bind; [keep | intros _].
  destruct (getPreferredGasPrice w) as [p |]; cbn [truthy_num];
    [| keep; by apply unlockOrder_keeps].
  change (default 0 (Some p)) with p.
  destruct (Z.eqb_spec p 0) as [| Hp]; cbn [negb];
    [keep; by apply unlockOrder_keeps |].
  cbv zeta.
  destruct (Z.ltb_spec (g * p) (executorFee o)) as [Hlt |];
    [| keep; by apply unlockOrder_keeps].
  apply preserves_bind; [apply preserves_modify; auto | intros _].
  destruct (executeOrder w o g p) as [r | b]; [| apply preserves_ret].
  apply preserves_bind; [apply handleFailedExecution_keeps | intros _].
  keep. by apply unlockOrder_keeps.
Qed.

Lemma executeIfAppropriate_keeps w o :
  evaluable o -> preserves I (executeIfAppropriate config w o).
Proof.
  intros Ho. unfold executeIfAppropriate.
  apply preserves_bind; [keep | intros [|]]; [apply preserves_ret |].
  destruct (Z.eqb_spec (orderState o) OrderState.Placed) as [Hp |];
    [| apply preserves_ret].
  by apply attemptExecution_keeps.
Qed.

(** The price-sync listener, on a market that is [touchable] with orders
    that are [evaluable]; it deletes a pool only when the pool owns no
    order, or is gone already. *)

Hypothesis F_pool_idle : forall k s,
  touchable k ->
  match pools s !! k with
  | Some p => getOrderCount p = 0%nat
  | None => True
  end ->
  I s -> I (set_pools (delete k) s).

Hypothesis all_evaluable : forall o, evaluable o.

Lemma syncOrders_keeps w pa ks :
  touchable pa -> preserves I (syncOrders config w pa ks).
Proof.
  intros Hpa. induction ks as [| k ks IH]; simpl; [apply preserves_ret |].
  apply preserves_bind; [keep | intros [pool |]]; [| apply preserves_throw].
  apply preserves_bind; [| intros _; exact IH].
  destruct (orders pool !! k) as [o |]; [| apply preserves_ret].
  apply preserves_bind; [by apply executeIfAppropriate_keeps | intros b].
  apply preserves_bind; [keep | intros p'].
  apply preserves_when, preserves_modify. auto.
Qed.

Lemma syncData_keeps w pa : touchable pa -> preserves I (syncData config w pa).
Proof.
  intros Hpa. unfold syncData. apply preserves_gets_bind. intros s Hs.
  assert (Hidle :
    match pools s !! pa with
    | Some p => getOrderCount p = 0%nat
    | None => True
    end ->
    I (final ((l ← gets (fun s => poolListeners s !! pa);
               match l with
               | Some emitter =>
                   emit (EvRemoveAllListeners emitter);;
                   modify (set_poolListeners (delete pa));;
                   modify (set_pools (delete pa))
               | None => throw
               end) s))).
  { intros Hp. cbv [mbind M_bind gets emit modify].
    destruct (poolListeners s !! pa) as [emitter |]; [| exact Hs]. cbn.
    apply (F_pool_idle pa
             (set_poolListeners (delete pa)
                (set_trace (cons (EvRemoveAllListeners emitter)) s))); auto. }
  destruct (pools s !! pa) as [pool |] eqn:E; [| by apply Hidle].
  destruct (Nat.eqb_spec (getOrderCount pool) 0); [by apply Hidle |].
  by apply syncOrders_keeps.
Qed.

Lemma orderPlacedData_keeps w rv : preserves I (orderPlacedData config w rv).
Proof.
  unfold orderPlacedData. destruct rv as [o |]; [| apply preserves_ret].
  apply preserves_bind; [by apply executeIfAppropriate_keeps | intros b]. keep.
Qed.

(** The other listeners and the steps, with every market [touchable]. *)

Hypothesis all_touchable : forall k, touchable k.
Hypothesis F_pool_delete : forall k s, I s -> I (set_pools (delete k) s).

Lemma untrackOrder_keeps w o : preserves I (untrackOrder config w o).
Proof.
  unfold untrackOrder.
  apply preserves_bind; [by apply removePoolOrder_keeps | intros _].
  apply preserves_bind; [keep | intros _].
  destruct (getPairAddress w _ _) as [k |]; [| apply preserves_throw].
  apply preserves_bind; [keep | intros p]. apply preserves_when.
  apply preserves_bind; [keep | intros l].
  apply preserves_bind; [keep | intros _]. apply preserves_modify. auto.
Qed.

Lemma orderCancelledData_keeps w rv : preserves I (orderCancelledData config w rv).
Proof.
  destruct rv; simpl; [apply untrackOrder_keeps | apply preserves_ret].
Qed.

Lemma orderExecutedData_keeps w h rv :
  preserves I (orderExecutedData config w h rv).
Proof.
  unfold orderExecutedData. apply preserves_bind; [keep | intros _].
  destruct (getTransactionReceipt w h) as [r |]; [| apply preserves_throw].
  destruct (match r with Some r0 => negb (status r0) | None => false end);
    [apply handleFailedExecution_keeps |].
  destruct rv; [apply untrackOrder_keeps | apply preserves_ret].
Qed.

Lemma addPoolOrders_keeps w os : preserves I (addPoolOrders config w os).
Proof.
  induction os as [| o os IH]; simpl; [apply preserves_ret |].
  apply preserves_bind; [by apply addPoolOrder_keeps | intros _; exact IH].
Qed.

Lemma start_keeps w os : preserves I (start config w os).
Proof.
  unfold start, createOrderPlacedListener, createOrderCancelledListener,
    createOrderExecutedListener.
  repeat (apply preserves_bind; [| intros _]);
    auto using addPoolOrders_keeps, createOrderListener_keeps.
Qed.

Lemma resume_keeps w t : preserves I (resume config w t).
Proof.
  destruct t; simpl;
    auto using removePoolOrder_keeps, addPoolOrder_keeps,
      createPoolChangeListener_keeps, handleShutdown_resume_keeps.
Qed.

Hypothesis F_expire : forall id s,
  id ∈ (timers s).*1 -> I s ->
  I (set_failedTxnTimer None
       (set_failedTxnGasCost 0
          (set_failedTxnCount 0 (set_timers (filter (fun t => t.1 ≠ id)) s)))).

Lemma step_keeps w i : preserves I (step config w i).
Proof.
  destruct i; simpl; unfold listening.
  - apply start_keeps.
  - apply preserves_bind; [keep | intros b].
    apply preserves_when, syncData_keeps, all_touchable.
  - apply preserves_bind; [keep | intros b].
    apply preserves_when, handleError_generic_keeps.
  - apply preserves_bind; [keep | intros b].
    apply preserves_when, createPoolChangeListener_keeps.
  - apply preserves_bind; [keep | intros b].
    apply preserves_when, orderPlacedData_keeps.
  - apply preserves_bind; [keep | intros b].
    apply preserves_when, orderCancelledData_keeps.
  - apply preserves_bind; [keep | intros b].
    apply preserves_when, orderExecutedData_keeps.
  - apply preserves_bind; [keep | intros b].
    apply preserves_when, handleError_generic_keeps.
  - apply preserves_bind; [keep | intros b].
    apply preserves_when, createOrderListener_keeps.
  - apply preserves_gets_bind. intros s Hs.
    destruct (bool_decide _) eqn:E; [| exact Hs].
    apply bool_decide_eq_true in E. by apply F_expire.
  - apply handleShutdown_keeps. intros s E.
    unfold notifies, ExitCodes.Success in E. simpl in E. discriminate.
  - apply preserves_bind; [keep | intros [t |]]; [| apply preserves_ret].
    apply preserves_bind; [apply preserves_modify; auto | intros _].
    apply resume_keeps.
Qed.

Lemma run_keeps s s' : I s -> run config s s' -> I s'.
Proof.
  intros Hs Hrun. induction Hrun as [| s s' w i Hrun IH Halive]; [done |].
  by apply step_keeps, IH.
Qed.

End Footprint.

(** ** What no run of the service does *)

Lemma setFailedTxnTimer_trace config s :
  trace (final (setFailedTxnTimer config s)) = trace s.
Proof. rewrite setFailedTxnTimer_run. by destruct (armsTimer config s). Qed.

(** What every step keeps holds after a run, and after one more step,
    be it the one the process exits in. *)
Lemma invariant_along_runs config (I : State -> Prop) :
  (forall w i s, I s -> I (final (step config w i s))) ->
  forall s s', I s -> run config s s' ->
    I s' /\ forall w i, I (final (step config w i s')).
Proof.
  intros Hstep s s' Hs Hrun.
  assert (Hs' : I s') by (induction Hrun; auto).
  auto.
Qed.

(** A property of the trace that stands each kind of event where the
    service emits it holds along every run. *)
Lemma trace_invariant config (P : list Event -> Prop) :
  (forall e t, plain e = true -> P t -> P (e :: t)) ->
  (forall c t,
     c = ExitCodes.TooManyFailures \/ c = ExitCodes.TooMuchGasLost ->
     notifies config c = true ->
     P t -> P (EvFetch (failureShutdownWebhookUrl config) c :: t)) ->
  (forall o t, overridden config = false ->
     P t -> P (EvGetEstimatedGasForOrder (orderId o) :: t)) ->
  (forall o g p t,
     orderState o = OrderState.Placed -> g <> 0 -> p <> 0 ->
     g * p < executorFee o -> P t -> P (EvExecuteOrder o g p :: t)) ->
  forall s s', P (trace s) -> run config s s' ->
    P (trace s') /\ forall w i, P (trace (final (step config w i s'))).
Proof.
  intros Hplain Hfetch Hest Hexec.
  apply (invariant_along_runs config (fun s => P (trace s))).
  intros w i s1 H1.
  apply (step_keeps config (fun s => P (trace s)))
    with (touchable := fun _ => True) (evaluable := fun _ => True);
    cbn; auto.
  intros s2 H2. by rewrite setFailedTxnTimer_trace.
Qed.

(** X1: along every run of the service, whatever the inputs and the
    answers of the collaborators, each execution attempt is for an order
    in state Placed, with a gas estimate and a gas price that are not
    zero and whose product is strictly below the executor fee of the
    order; this holds of the step the process exits in as well. *)
Theorem never_executes_at_a_loss config s s' :
  Forall profitable (trace s) -> run config s s' ->
  Forall profitable (trace s') /\
  forall w i, Forall profitable (trace (final (step config w i s'))).
Proof.
  apply (trace_invariant config (Forall profitable)).
  - intros e t He Ht. constructor; [| done]. by destruct e.
  - intros c t _ _ Ht. by constructor.
  - intros o t _ Ht. by constructor.
  - intros o g p t ? ? ? ? Ht. by constructor.
Qed.

Lemma never_executes_at_a_loss_witness :
  let w := sampleWorld (EstimateResolves (Some 8)) (ExecutionResolves true) in
  Forall profitable (trace (tracking [])) /\
  Forall profitable
    (trace (final (step sampleConfig w (OrderPlacedData (Some (sampleOrder 1 100)))
                     (tracking [])))).
Proof.
  intros w.
  assert (H : Forall profitable (trace (tracking []))).
  { vm_compute. repeat constructor. }
  split; [exact H |].
  apply (never_executes_at_a_loss sampleConfig (tracking []) (tracking [])).
  - exact H.
  - apply run_done.
Defined.

(** X2: along every run, the shutdown webhook is posted to only when a
    failure threshold trips: each post goes to the configured URL, which
    is then not empty, with exit code 2 (too many failures) or 3 (too
    much gas lost); a signal, a listener error or a failing lookup posts
    nothing. *)
Theorem webhook_only_for_failure_codes config s s' :
  Forall (failurePost config) (trace s) -> run config s s' ->
  Forall (failurePost config) (trace s') /\
  forall w i, Forall (failurePost config) (trace (final (step config w i s'))).
Proof.
  apply (trace_invariant config (Forall (failurePost config))).
  - intros e t He Ht. constructor; [| done]. by destruct e.
  - intros c t Hc Hn Ht. constructor; [| done]. cbn.
    split; [done |]. split; [| done].
    unfold notifies in Hn. apply andb_true_iff in Hn as [_ Hn].
    by destruct (failureShutdownWebhookUrl config).
  - intros o t _ Ht. by constructor.
  - intros o g p t ? ? ? ? Ht. by constructor.
Qed.

Lemma webhook_only_for_failure_codes_witness :
  let config := withWebhook sampleConfig in
  let w := sampleWorld (EstimateResolves (Some 8))
             (ExecutionRejects (sampleReceipt 2000000)) in
  Forall (failurePost config) (trace (tracking [])) /\
  Forall (failurePost config)
    (trace (final (step config w (OrderPlacedData (Some (sampleOrder 1 100)))
                     (tracking [])))).
Proof.
  intros config w.
  assert (H : Forall (failurePost config) (trace (tracking []))).
  { vm_compute. repeat constructor. }
  split; [exact H |].
  apply (webhook_only_for_failure_codes config (tracking []) (tracking [])).
  - exact H.
  - apply run_done.
Defined.

(** X3: with the gas-estimate override set in the environment, no run
    ever asks the gas provider for an estimate, and the bad-order retry
    counters never change. *)
Theorem override_bypasses_gas_provider config s s' :
  overridden config = true -> run config s s' ->
  (List.filter asked (trace s') = List.filter asked (trace s) /\
   badOrderMap s' = badOrderMap s) /\
  forall w i,
    List.filter asked (trace (final (step config w i s'))) = List.filter asked (trace s) /\
    badOrderMap (final (step config w i s')) = badOrderMap s.
Proof.
  intros Hov Hrun.
  apply (invariant_along_runs config (fun s1 =>
           List.filter asked (trace s1) = List.filter asked (trace s) /\
           badOrderMap s1 = badOrderMap s)) with (s := s); [| done | done].
  intros w i s1 H1.
  apply (step_keeps config (fun s1 =>
           List.filter asked (trace s1) = List.filter asked (trace s) /\
           badOrderMap s1 = badOrderMap s))
    with (touchable := fun _ => True) (evaluable := fun _ => True);
    cbn; auto; try congruence.
  - intros e s2 He [H2 H3]. split; [| done]. by destruct e.
  - intros s2 [H2 H3]. rewrite setFailedTxnTimer_run.
    by destruct (armsTimer config s2).
Qed.

Lemma override_bypasses_gas_provider_witness :
  let config := withOverride "50000" sampleConfig in
  let w := sampleWorld EstimateRejects (ExecutionResolves true) in
  let s' := final (step config w (OrderPlacedData (Some (sampleOrder 1 1000000)))
                     (tracking [])) in
  List.filter asked (trace s') = List.filter asked (trace (tracking [])) /\
  badOrderMap s' = badOrderMap (tracking []).
Proof.
  intros config w s'.
  apply (override_bypasses_gas_provider config (tracking []) (tracking [])).
  - reflexivity.
  - apply run_done.
Defined.

(** X4: when [resetTimerOnFailure] does not read "true", at most one
    failure-window timeout is pending at any point of a run, and it is
    the one [failedTxnTimer] holds: a timeout is set only while none is
    held, and the one that fires is the one held. *)
Theorem single_timer_without_reset config s s' :
  String.eqb (toLowerCase (resetTimerOnFailure config)) "true" = false ->
  single_timer s -> run config s s' ->
  single_timer s' /\ forall w i, single_timer (final (step config w i s')).
Proof.
  intros Hreset. apply invariant_along_runs. clear s s'.
  intros w i s Hs.
  apply (step_keeps config single_timer)
    with (touchable := fun _ => True) (evaluable := fun _ => True);
    try solve [cbn; auto].
  - intros s1 H1. rewrite setFailedTxnTimer_run. unfold armsTimer.
    rewrite Hreset, orb_false_r. unfold single_timer in *.
    destruct (truthy_string _); [| done]. cbn.
    destruct (failedTxnTimer s1) eqn:E; cbn; [by rewrite E |].
    rewrite H1. eauto.
  - intros id s1 Hin H1. unfold single_timer in *. cbn.
    destruct (failedTxnTimer s1) as [t |].
    + destruct H1 as [d H1]. rewrite H1 in Hin |- *. cbn in Hin.
      apply list_elem_of_singleton in Hin as ->.
      rewrite filter_cons_False by (cbn; intros H; by apply H). done.
    + by rewrite H1.
Qed.

Lemma single_timer_without_reset_witness :
  let w := sampleWorld (EstimateResolves (Some 8))
             (ExecutionRejects (sampleReceipt 21000)) in
  single_timer (tracking []) /\
  single_timer
    (final (step sampleConfig w (OrderPlacedData (Some (sampleOrder 1 100)))
              (tracking []))).
Proof.
  intros w.
  assert (H : single_timer (tracking [])) by reflexivity.
  split; [exact H |].
  apply (single_timer_without_reset sampleConfig (tracking []) (tracking [])).
  - reflexivity.
  - exact H.
  - apply run_done.
Defined.

(** ** What an evaluation and a tick leave alone *)



(** X6: a price-sync tick of a market leaves the pools of the other
    markets as they are, and the pool of its own market can only lose
    orders (or be deleted): the tick adds no order to any pool. *)
Theorem syncData_frame config w pa s :
  let s' := final (syncData config w pa s) in
  (forall k, k <> pa -> pools s' !! k = pools s !! k) /\
  (forall p', pools s' !! pa = Some p' ->
     exists p, pools s !! pa = Some p /\ orders p' ⊆ orders p).
Proof.
  intros s'. subst s'.
  apply (syncData_keeps config
           (fun s1 =>
              (forall k, k <> pa -> pools s1 !! k = pools s !! k) /\
              (forall p', pools s1 !! pa = Some p' ->
                 exists p, pools s !! pa = Some p /\ orders p' ⊆ orders p)))
    with (touchable := fun k => k = pa) (evaluable := fun _ => True);
    try solve [cbn; auto].
  - intros id k s1 -> [H1 H2]. cbn. split.
    + intros k Hk. rewrite lookup_alter_ne by done. auto.
    + intros p'. rewrite lookup_alter_eq.
      destruct (pools s1 !! pa) as [p1 |] eqn:E; [| done]. cbn.
      intros [= <-]. destruct (H2 p1 eq_refl) as (p & Hp & Hsub).
      exists p. split; [done |]. cbn. etrans; [apply delete_subseteq | done].
  - intros s1 H1. rewrite setFailedTxnTimer_run. by destruct (armsTimer config s1).
  - intros k s1 -> _ [H1 H2]. cbn. split.
    + intros k Hk. rewrite lookup_delete_ne by done. auto.
    + intros p'. by rewrite lookup_delete_eq.
  - split; [done |]. intros p' Hp'. eauto.
Qed.

(** ** The lock, taken and released *)

(** X7: releasing a lock leaves the order free and is idempotent;
    taking then releasing the lock of an order that was not in the lock
    set gives the lock set back as it was, and never touches the lock of
    another order. *)
Theorem lock_unlock_round_trip id s :
  (unlocked s id -> unlockOrder id s = Ret tt s) /\
  unlocked (final (unlockOrder id s)) id /\
  (unlockOrder id;; unlockOrder id) s = unlockOrder id s /\
  (orderLocks s !! id = None ->
     exists s', (lockOrder id;; unlockOrder id) s = Ret tt s' /\
       orderLocks s' = orderLocks s /\
       trace s' = EvUnlock id :: EvLock id :: trace s) /\
  (forall id', id' <> id ->
     orderLocks (final ((lockOrder id;; unlockOrder id) s)) !! id'
     = orderLocks s !! id').
Proof.
  split; [| split; [| split; [| split]]].
  - intros Hu. rewrite unlockOrder_eq. by rewrite Hu.
  - rewrite unlockOrder_eq. unfold unlocked.
    destruct (default false (orderLocks s !! id)) eqn:E; cbn; [| done].
    by rewrite lookup_delete_eq.
  - unfold mbind, M_bind. rewrite !unlockOrder_eq.
    destruct (default false (orderLocks s !! id)) eqn:E; cbn.
    + rewrite unlockOrder_eq. cbn. by rewrite lookup_delete_eq.
    + rewrite unlockOrder_eq. by rewrite E.
  - intros Hn. unfold lockOrder, mbind, M_bind, modify, emit. cbn.
    rewrite unlockOrder_eq. cbn. rewrite lookup_insert_eq. cbn.
    eexists. split; [reflexivity |]. cbn. split; [| done].
    by rewrite delete_insert_eq, delete_id.
  - intros id' Hid. unfold lockOrder, mbind, M_bind, modify, emit. cbn.
    rewrite unlockOrder_eq. cbn. rewrite lookup_insert_eq. cbn.
    by rewrite lookup_delete_ne, lookup_insert_ne.
Qed.

(** ** The paths of the execution decision that hold the order *)

(** X8: a free, placed order that is not in the money is held: the
    evaluation locks it, asks whether it is in the money, releases the
    lock and returns false, without asking for a gas estimate or a gas
    price and without touching the pools, the retry counters, the failure
    counters or the waiting calls. *)
Theorem holds_when_not_in_the_money config w order s :
  unlocked s (orderId order) ->
  orderState order = OrderState.Placed ->
  isInTheMoney w order = Some false ->
  exists s',
    executeIfAppropriate config w order s = Ret false s' /\
    trace s' = EvUnlock (orderId order) :: EvIsInTheMoney order
               :: EvLock (orderId order) :: trace s /\
    orderLocks s' !! orderId order = None /\
    badOrderMap s' = badOrderMap s /\ pools s' = pools s /\
    pending s' = pending s /\
    failedTxnCount s' = failedTxnCount s /\
    failedTxnGasCost s' = failedTxnGasCost s.
Proof.
  intros Hl Hp Hm. unfold executeIfAppropriate, attemptExecution, unlocked in *.
  cbv [mbind M_bind mret M_ret gets modify emit when lockOrder unlockOrder].
  rewrite Hl, Hp, Hm. cbn. rewrite lookup_insert_eq. cbn.
  eexists. split; [reflexivity |]. cbn. by rewrite lookup_delete_eq.
Qed.

Lemma holds_when_not_in_the_money_witness :
  let w := outOfTheMoney (sampleWorld (EstimateResolves (Some 8))
                            (ExecutionResolves true)) in
  exists s',
    executeIfAppropriate sampleConfig w (sampleOrder 1 100) initial = Ret false s' /\
    trace s' = [EvUnlock 1; EvIsInTheMoney (sampleOrder 1 100); EvLock 1].
Proof.
  intros w.
  destruct (holds_when_not_in_the_money sampleConfig w (sampleOrder 1 100) initial)
    as (s' & H1 & H2 & _); try reflexivity.
  exists s'. split; [exact H1 | exact H2].
Defined.

(** X9: a free, placed order in the money is held as well when there is
    nothing to compute a cost from: the gas estimate (override or
    provider) is undefined, not a number or zero, or the gas price is
    undefined or zero.  The evaluation returns false with the lock
    released, no execution attempt, and pools, retry counters, failure
    counters and waiting calls unchanged. *)
Theorem holds_without_estimate_or_price config w order s :
  unlocked s (orderId order) ->
  orderState order = OrderState.Placed ->
  isInTheMoney w order = Some true ->
  noUsableEstimate config w order \/
  (exists g, gasEstimated config w order g /\ g <> 0 /\
             truthy_num (getPreferredGasPrice w) = false) ->
  exists s',
    executeIfAppropriate config w order s = Ret false s' /\
    orderLocks s' !! orderId order = None /\
    badOrderMap s' = badOrderMap s /\ pools s' = pools s /\
    pending s' = pending s /\
    executions (trace s') = executions (trace s) /\
    failedTxnCount s' = failedTxnCount s /\
    failedTxnGasCost s' = failedTxnGasCost s.
Proof.
  intros Hl Hp Hm H.
  unfold executeIfAppropriate, attemptExecution, estimateGas, noUsableEstimate,
    gasEstimated, unlocked in *.
  cbv [mbind M_bind mret M_ret gets modify emit when lockOrder unlockOrder].
  rewrite Hl, Hp, Hm. cbn.
  destruct H as [H | (g & Hg & Hg0 & Hprice)].
  - destruct (ESTIMATED_GAS_OVERRIDE config) as [[| c o] |];
      destruct H as [H | H]; rewrite H; cbn; rewrite lookup_insert_eq; cbn;
      (eexists; split; [reflexivity |]); cbn; by rewrite lookup_delete_eq.
  - destruct (ESTIMATED_GAS_OVERRIDE config) as [[| c o] |]; rewrite Hg; cbn;
      (destruct (Z.eqb_spec g 0) as [| _]; [done |]); cbn; rewrite Hprice; cbn;
      rewrite lookup_insert_eq; cbn;
      (eexists; split; [reflexivity |]); cbn; by rewrite lookup_delete_eq.
Qed.

Lemma holds_without_estimate_or_price_witness :
  let config := withOverride "gas" sampleConfig in
  let w := sampleWorld (EstimateResolves (Some 8)) (ExecutionResolves true) in
  exists s',
    executeIfAppropriate config w (sampleOrder 1 100) initial = Ret false s' /\
    orderLocks s' !! 1 = None /\
    executions (trace s') = [].
Proof.
  intros config w.
  destruct (holds_without_estimate_or_price config w (sampleOrder 1 100) initial)
    as (s' & H1 & H2 & _ & _ & _ & H3 & _); try reflexivity.
  { left. left. reflexivity. }
  exists s'. split; [exact H1 |]. split; [exact H2 | exact H3].
Defined.

(** ** The order-placed listener *)




(** ** The price-sync listener *)

(** The execution path in full: when the collaborator resolves, only the
    lock set and the trace have changed. *)
Lemma executeIfAppropriate_resolves config w order s g p b :
  unlocked s (orderId order) ->
  orderState order = OrderState.Placed ->
  isInTheMoney w order = Some true ->
  gasEstimated config w order g -> g <> 0 ->
  getPreferredGasPrice w = Some p -> p <> 0 ->
  g * p < executorFee order ->
  executeOrder w order g p = ExecutionResolves b ->
  exists s1,
    executeIfAppropriate config w order s = Ret b s1 /\
    orderLocks s1 = <[orderId order := true]> (orderLocks s) /\
    executions (trace s1) = EvExecuteOrder order g p :: executions (trace s) /\
    pools s1 = pools s /\ poolListeners s1 = poolListeners s /\
    orderListeners s1 = orderListeners s /\ badOrderMap s1 = badOrderMap s /\
    pending s1 = pending s /\ timers s1 = timers s /\
    failedTxnTimer s1 = failedTxnTimer s /\
    failedTxnCount s1 = failedTxnCount s /\
    failedTxnGasCost s1 = failedTxnGasCost s.
Proof.
  intros Hl Hp Hm Hg Hg0 Hpr Hp0 Hlt Hex.
  unfold executeIfAppropriate, attemptExecution, estimateGas, gasEstimated,
    unlocked in *.
  cbv [mbind M_bind mret M_ret gets modify emit spawn when lockOrder unlockOrder].
  apply Z.ltb_lt in Hlt.
  rewrite Hl, Hp, Hm, Hpr. cbn.
  destruct (Z.eqb_spec p 0) as [| _]; [done |].
  destruct (ESTIMATED_GAS_OVERRIDE config) as [[| c o] |]; rewrite Hg;
    (destruct (Z.eqb_spec g 0) as [| _]; [done |]); cbn; rewrite Hlt, Hex;
    (eexists; split; [reflexivity |]); done.
Qed.

(** X11: a price-sync tick on a pool whose one order can be executed at
    a profit attempts that order once and, the execution having resolved
    with a truthy value, takes the order out of the pool; the pool, now
    empty, and its subscription stay until the next tick, and the order
    stays locked. *)
Theorem tick_executes_and_untracks config w order pool pa s g p :
  pools s !! pa = Some pool ->
  orders pool = {[orderId order := order]} ->
  unlocked s (orderId order) ->
  orderState order = OrderState.Placed ->
  isInTheMoney w order = Some true ->
  gasEstimated config w order g -> g <> 0 ->
  getPreferredGasPrice w = Some p -> p <> 0 ->
  g * p < executorFee order ->
  executeOrder w order g p = ExecutionResolves true ->
  exists s',
    syncData config w pa s = Ret tt s' /\
    executions (trace s') = EvExecuteOrder order g p :: executions (trace s) /\
    (exists pool', pools s' !! pa = Some pool' /\ orders pool' = ∅) /\
    orderLocks s' !! orderId order = Some true /\
    poolListeners s' = poolListeners s.
Proof.
  intros Hpool Horders Hl Hp Hm Hg Hg0 Hpr Hp0 Hlt Hex.
  destruct (executeIfAppropriate_resolves config w order s g p true)
    as (s1 & Heq & Hlocks & Hexs & Hpools & Hpl & _); auto.
  unfold syncData. cbv [mbind M_bind gets]. rewrite Hpool.
  unfold getOrderCount, keys. rewrite Horders, map_size_singleton.
  cbn [Nat.eqb]. rewrite map_to_list_singleton. cbn [fmap list_fmap fst].
  cbn [syncOrders]. cbv [mbind M_bind mret M_ret gets modify when].
  rewrite Hpool, Horders, lookup_singleton_eq, Heq, Hpools, Hpool. cbn.
  eexists. split; [reflexivity |]. cbn.
  rewrite Hexs, Hlocks, lookup_insert_eq, Hpools.
  split; [done |]. split; [| done].
  exists (removeOrder (orderId order) pool).
  rewrite lookup_alter_eq, Hpool. cbn. split; [done |].
  by rewrite Horders, delete_singleton_eq.
Qed.

Lemma tick_executes_and_untracks_witness :
  let w := sampleWorld (EstimateResolves (Some 8)) (ExecutionResolves true) in
  let o := sampleOrder 1 100 in
  let s := tracking [o] in
  exists s',
    syncData sampleConfig w "0xpair" s = Ret tt s' /\
    executions (trace s') = EvExecuteOrder o 8 10 :: executions (trace s) /\
    (exists pool', pools s' !! "0xpair" = Some pool' /\ orders pool' = ∅).
Proof.
  intros w o s.
  destruct (tick_executes_and_untracks sampleConfig w o
              (addOrder 1 o (newTokenPool "0xpair")) "0xpair" s 8 10)
    as (s' & H1 & H2 & H3 & _); try reflexivity; try discriminate.
  exists s'. split; [exact H1 |]. split; [exact H2 | exact H3].
Defined.

Lemma syncOrders_idle config w pa pool s ks :
  pools s !! pa = Some pool ->
  (forall id o, orders pool !! id = Some o ->
     orderLocks s !! orderId o = Some true \/
     orderState o <> OrderState.Placed) ->
  syncOrders config w pa ks s = Ret tt s.
Proof.
  intros Hpool Hidle. induction ks as [| k ks IH]; [done |].
  cbn [syncOrders]. cbv [mbind M_bind mret M_ret gets modify when].
  rewrite Hpool. destruct (orders pool !! k) as [o |] eqn:Ho; [| exact IH].
  rewrite executeIfAppropriate_early by eauto. cbn. exact IH.
Qed.

(** X12: a price-sync tick on a pool that owns orders, each of them
    being executed (locked) or not in state Placed, does nothing at all:
    no question to a collaborator, no change of the state. *)
Theorem tick_skips_busy_orders config w pa pool s :
  pools s !! pa = Some pool ->
  orders pool <> ∅ ->
  (forall id o, orders pool !! id = Some o ->
     orderLocks s !! orderId o = Some true \/
     orderState o <> OrderState.Placed) ->
  syncData config w pa s = Ret tt s.
Proof.
  intros Hpool Hne Hidle. unfold syncData. cbv [mbind M_bind gets].
  rewrite Hpool. unfold getOrderCount.
  destruct (Nat.eqb_spec (size (orders pool)) 0) as [E |].
  - by apply map_size_empty_iff in E.
  - by eapply syncOrders_idle.
Qed.

Lemma tick_skips_busy_orders_witness :
  let w := sampleWorld (EstimateResolves (Some 8)) (ExecutionResolves true) in
  syncData sampleConfig w "0xpair" busy = Ret tt busy.
Proof.
  intros w.
  apply (tick_skips_busy_orders sampleConfig w "0xpair"
           (addOrder 1 (sampleOrder 1 100) (newTokenPool "0xpair")) busy).
  - reflexivity.
  - apply insert_non_empty.
  - intros id o H. cbn in H.
    apply lookup_insert_Some in H as [[_ <-] | [_ H]].
    + left. reflexivity.
    + by rewrite lookup_empty in H.
Defined.

(** ** The order-executed listener *)

(** What a recorded failure leaves behind, whatever its outcome. *)
Lemma handleFailedExecution_final config r s :
  truthy_receipt r = true ->
  let s' := final (handleFailedExecution config r s) in
  failedTxnCount s' = failedTxnCount s + 1 /\
  failedTxnGasCost s' = failedTxnGasCost s + gasUsed_or_0 r /\
  pools s' = pools s /\ orderLocks s' = orderLocks s /\
  badOrderMap s' = badOrderMap s.
Proof.
  intros Hr s'. subst s'.
  destruct (handleFailedExecution_run config r s Hr) as (s2 & H2 & E).
  rewrite E. clear E.
  destruct H2 as (Hl & Hb & Hp & _ & Hc & Hg & _). cbn in Hl, Hb, Hp, Hc, Hg.
  destruct (_ && _); [done |]. destruct (_ && _); [done |].
  rewrite setFailedTxnTimer_run. by destruct (armsTimer config s2).
Qed.

(** X13: an order-executed event whose transaction has a receipt with a
    falsy status is counted as a failure, by its hash: the failure count
    goes up by one, the cumulative gas cost does not change (the recorder
    is given the hash, which has no [gasUsed]), and the order of the
    event stays in its pool. *)
Theorem failed_transaction_event config w hash rv r s :
  getTransactionReceipt w hash = Some (Some r) ->
  status r = false ->
  hash <> "" ->
  let s' := final (orderExecutedData config w hash rv s) in
  failedTxnCount s' = failedTxnCount s + 1 /\
  failedTxnGasCost s' = failedTxnGasCost s /\
  pools s' = pools s.
Proof.
  intros Hrec Hst Hh s'. subst s'. unfold orderExecutedData.
  cbv [mbind M_bind emit modify]. rewrite Hrec, Hst. cbn [negb].
  destruct (handleFailedExecution_final config (RString hash)
              (set_trace (cons (EvGetTransactionReceipt hash)) s))
    as (Hc & Hg & Hp & _).
  { by destruct hash. }
  cbn in Hc, Hg, Hp. rewrite Hc, Hg, Hp. split; [done |]. split; [lia | done].
Qed.

Lemma failed_transaction_event_witness :
  let r := {| transactionHash := "0xfailed"; gasUsed := Some 21000;
              status := false |} in
  let w := withReceipt r (sampleWorld (EstimateResolves (Some 8))
                            (ExecutionResolves true)) in
  let s := tracking [sampleOrder 1 100] in
  let s' := final (orderExecutedData sampleConfig w "0xfailed"
                     (Some (sampleOrder 1 100)) s) in
  failedTxnCount s' = failedTxnCount s + 1 /\
  failedTxnGasCost s' = failedTxnGasCost s /\
  pools s' = pools s.
Proof.
  intros r w s.
  apply (failed_transaction_event sampleConfig w "0xfailed"
           (Some (sampleOrder 1 100)) r s).
  - reflexivity.
  - reflexivity.
  - discriminate.
Defined.

(** ** Subscriptions: start, reconnection, errors *)










(** ** config.ts *)

Module ConfigFileFacts.
Import ConfigFile.

Lemma getEnv_set env key :
  isSet env key = true ->
  exists v, env !! key = Some v /\ getEnv env key = inr v /\ v <> "".
Proof.
  unfold isSet, getEnv. destruct (env !! key) as [[| c v] |]; try done.
  intros _. eauto.
Qed.

Lemma getEnv_unset env key :
  isSet env key = false ->
  getEnv env key = inl (String.append "env var " (String.append key " not set")).
Proof. unfold isSet, getEnv. by destruct (env !! key) as [[| c v] |]. Qed.

Ltac read_next :=
  match goal with
  | |- context [getEnv ?env ?k] =>
      let E := fresh "E" in
      destruct (isSet env k) eqn:E;
      [ let v := fresh "v" in
        let Hv := fresh "Hv" in
        let Hg := fresh "Hg" in
        let Hne := fresh "Hne" in
        destruct (getEnv_set env k E) as (v & Hv & Hg & Hne);
        rewrite Hg; cbn [andThen]
      | rewrite (getEnv_unset env k E); cbn [andThen] ]
  end.

Ltac found pre :=
  let H := fresh "H" in
  intros H; injection H as <-;
  eexists pre, _, _; split; [reflexivity |];
  split;
    [cbn;
     repeat match goal with
            | E : isSet _ _ = true |- _ => rewrite E; clear E
            end;
     reflexivity |];
  split; [eassumption | reflexivity].

(** X18: the settings load exactly when each of the eleven required
    variables is set to a string that is not empty; the two optional
    variables (the timer reset and the webhook URL) are never asked
    for. *)
Theorem config_loads_iff env :
  (exists c, config env = inr c) <-> forallb (isSet env) required = true.
Proof.
  unfold config, required. cbn [forallb].
  repeat (read_next; [| cbn; split; [by intros [? ?] | done]]).
  cbn. split; [done | eauto].
Qed.

(** X19: in the settings that load, the four failure settings are the
    values of their variables and are truthy (so the three thresholds of
    the failure recorder are always armed), the timer reset reads
    "false" when its variable is unset or empty, and the webhook URL is
    empty, which disables the notification, when its variable is unset
    or empty. *)
Theorem config_values env c :
  config env = inr c ->
  (env !! "BAD_ORDER_RETRY" = Some (badOrderRetry c) /\
   env !! "MAX_FAILURE_COUNT" = Some (maxFailureCount c) /\
   env !! "MAX_FAILURE_GAS_COST" = Some (maxFailureGasCost c) /\
   env !! "MAX_FAILURE_DURATION" = Some (maxFailureDuration c)) /\
  (truthy_string (badOrderRetry c) = true /\
   truthy_string (maxFailureCount c) = true /\
   truthy_string (maxFailureGasCost c) = true /\
   truthy_string (maxFailureDuration c) = true) /\
  (resetTimerOnFailure c =
     if isSet env "RESET_TIMER_ON_FAILURE"
     then default "" (env !! "RESET_TIMER_ON_FAILURE") else "false") /\
  (failureShutdownWebhookUrl c =
     if isSet env "FAILURE_SHUTDOWN_WEBHOOK_URL"
     then default "" (env !! "FAILURE_SHUTDOWN_WEBHOOK_URL") else "").
Proof.
  unfold config.
  repeat (read_next; [| done]).
  intros [= <-]. cbn.
  split; [done |]. split.
  { repeat split; match goal with |- truthy_string ?v = true => by destruct v end. }
  unfold isSet, orElse, getOptionalEnv.
  split.
  - by destruct (env !! "RESET_TIMER_ON_FAILURE") as [[| ? ?] |].
  - by destruct (env !! "FAILURE_SHUTDOWN_WEBHOOK_URL") as [[| ? ?] |].
Qed.

Lemma config_values_witness :
  config sampleEnv = inr sampleSettings /\
  resetTimerOnFailure sampleSettings = "false" /\
  failureShutdownWebhookUrl sampleSettings = "".
Proof.
  assert (H : config sampleEnv = inr sampleSettings) by (vm_compute; reflexivity).
  split; [exact H |].
  destruct (config_values sampleEnv sampleSettings H) as (_ & _ & Hr & Hw).
  split; [exact Hr | exact Hw].
Defined.

(** X20: when the settings do not load, the error names the first
    required variable, in the order the settings read them, that is
    unset or empty. *)
Theorem config_error_names_first_missing env msg :
  config env = inl msg ->
  exists pre k post,
    required = pre ++ k :: post /\
    forallb (isSet env) pre = true /\
    isSet env k = false /\
    msg = String.append "env var " (String.append k " not set").
Proof.
  unfold config, required.
  read_next; [| found (@nil string)].
  read_next; [| found ["ACCOUNT_PRIVATE_KEY"]].
  read_next; [| found ["ACCOUNT_PRIVATE_KEY"; "PROVIDER_URI"]].
  read_next; [| found ["ACCOUNT_PRIVATE_KEY"; "PROVIDER_URI"; "UNITRADE_ADDRESS"]].
  read_next; [| found ["ACCOUNT_PRIVATE_KEY"; "PROVIDER_URI"; "UNITRADE_ADDRESS";
                       "UNISWAP_FACTORY_ADDRESS"]].
  read_next; [| found ["ACCOUNT_PRIVATE_KEY"; "PROVIDER_URI"; "UNITRADE_ADDRESS";
                       "UNISWAP_FACTORY_ADDRESS"; "UNISWAP_ROUTER_ADDRESS"]].
  read_next; [| found ["ACCOUNT_PRIVATE_KEY"; "PROVIDER_URI"; "UNITRADE_ADDRESS";
                       "UNISWAP_FACTORY_ADDRESS"; "UNISWAP_ROUTER_ADDRESS";
                       "PERCENT_SLIPPAGE"]].
  read_next; [| found ["ACCOUNT_PRIVATE_KEY"; "PROVIDER_URI"; "UNITRADE_ADDRESS";
                       "UNISWAP_FACTORY_ADDRESS"; "UNISWAP_ROUTER_ADDRESS";
                       "PERCENT_SLIPPAGE"; "GAS_PRICE_LEVEL"]].
  read_next; [| found ["ACCOUNT_PRIVATE_KEY"; "PROVIDER_URI"; "UNITRADE_ADDRESS";
                       "UNISWAP_FACTORY_ADDRESS"; "UNISWAP_ROUTER_ADDRESS";
                       "PERCENT_SLIPPAGE"; "GAS_PRICE_LEVEL"; "BAD_ORDER_RETRY"]].
  read_next; [| found ["ACCOUNT_PRIVATE_KEY"; "PROVIDER_URI"; "UNITRADE_ADDRESS";
                       "UNISWAP_FACTORY_ADDRESS"; "UNISWAP_ROUTER_ADDRESS";
                       "PERCENT_SLIPPAGE"; "GAS_PRICE_LEVEL"; "BAD_ORDER_RETRY";
                       "MAX_FAILURE_COUNT"]].
  read_next; [| found ["ACCOUNT_PRIVATE_KEY"; "PROVIDER_URI"; "UNITRADE_ADDRESS";
                       "UNISWAP_FACTORY_ADDRESS"; "UNISWAP_ROUTER_ADDRESS";
                       "PERCENT_SLIPPAGE"; "GAS_PRICE_LEVEL"; "BAD_ORDER_RETRY";
                       "MAX_FAILURE_COUNT"; "MAX_FAILURE_GAS_COST"]].
  done.
Qed.

Lemma config_error_names_first_missing_witness :
  config (delete "GAS_PRICE_LEVEL" sampleEnv) = inl "env var GAS_PRICE_LEVEL not set" /\
  exists pre k post,
    required = pre ++ k :: post /\
    forallb (isSet (delete "GAS_PRICE_LEVEL" sampleEnv)) pre = true /\
    isSet (delete "GAS_PRICE_LEVEL" sampleEnv) k = false /\
    "env var GAS_PRICE_LEVEL not set"
    = String.append "env var " (String.append k " not set").
Proof.
  assert (H : config (delete "GAS_PRICE_LEVEL" sampleEnv)
              = inl "env var GAS_PRICE_LEVEL not set") by (vm_compute; reflexivity).
  split; [exact H |].
  exact (config_error_names_first_missing _ _ H).
Defined.

End ConfigFileFacts.
